(** * dd_exp: verification of [utils.py]

    A shallow embedding of the numerical core of [utils.py]: the Gaussian XOR
    generator, the network constructor [Net.__init__], the polytope analyzer
    [get_polytopes], the Gini impurity helpers, the Hellinger distance and
    the Bayes posterior [pdf].

    Numeric conventions.
    - numpy [int64] arrays are lists of [Z] with wrap-around written out
      ([Int64.wrap]); numpy's default integer type on the platforms that
      offer CUDA is 64 bits wide.
    - float arrays handled by comparisons and products only (the analyzer,
      the Gini helpers) are lists of exact rationals [Q]; float arrays that
      go through [sqrt], [exp], [cos] or [sin] are lists of reals [R].
      Rounding is not modelled.
    - Python exceptions and numpy's [nan] results are the [Raise] outcomes
      of the [result] type. *)

From Stdlib Require Import ZArith QArith Qabs List Bool Lia Lra Psatz.
From Stdlib Require Import Reals.
Import ListNotations.

Set Implicit Arguments.

(** ** Outcomes of fallible code *)

Inductive exn : Type :=
| ValueError          (* numpy shape errors, negative sizes, empty concatenate *)
| AttributeError      (* attribute access on [None] *)
| TypeError           (* arithmetic on [None] *)
| IndexError          (* boolean index of the wrong length *)
| ZeroDivisionError   (* division by zero; [nan] for numpy scalars *)
| EmptyMean.          (* [np.mean] of an empty array: [nan] *)

Inductive result (A : Type) : Type :=
| Ok (a : A)
| Raise (e : exn).

Arguments Ok {A} a.
Arguments Raise {A} e.

Definition bind {A B : Type} (r : result A) (k : A -> result B) : result B :=
  match r with
  | Ok a => k a
  | Raise e => Raise e
  end.

Notation "x <- r ;; k" := (bind r (fun x => k))
  (at level 61, r at next level, right associativity).

Definition is_ok {A : Type} (r : result A) : bool :=
  match r with Ok _ => true | Raise _ => false end.

(** ** 64-bit integers of numpy *)

Module Int64.

Definition modulus : Z := 2 ^ 64.
Definition half_modulus : Z := 2 ^ 63.

(** Two's complement reduction into [-2^63, 2^63). *)
Definition wrap (z : Z) : Z := (z + half_modulus) mod modulus - half_modulus.

Definition add (a b : Z) : Z := wrap (a + b).
Definition mul (a b : Z) : Z := wrap (a * b).

(** [b ** e] on int64 operands: the product is reduced at every step. *)
Fixpoint pow (b : Z) (e : nat) : Z :=
  match e with
  | O => 1
  | S e' => mul b (pow b e')
  end.

End Int64.

(** ** Arrays *)

Definition matrix := list (list Q).
Definition int_matrix := list (list Z).

(** [np.arange(0, n)] *)
Definition arange (n : nat) : list nat := seq 0 n.

(** [2 ** np.arange(0, n)], an int64 array *)
Definition pow2_arange (n : nat) : list Z := map (Int64.pow 2) (arange n).

(** One row of [np.tensordot(a, w, axes = 1)] for int64 operands. *)
Fixpoint tensordot_row (row w : list Z) : Z :=
  match row, w with
  | b :: row', c :: w' => Int64.add (Int64.mul b c) (tensordot_row row' w')
  | _, _ => 0
  end.

(** The region identifier of one concatenated activation pattern, as in
    [np.tensordot(pattern, 2 ** np.arange(0, np.shape(pattern)[1]), axes = 1)]. *)
Definition region_id (pattern : list Z) : Z :=
  tensordot_row pattern (pow2_arange (length pattern)).

(** An activation pattern holds the values of [(... > t).astype('int')]. *)
Definition is_bit (b : Z) : Prop := b = 0%Z \/ b = 1%Z.
Definition pattern_ok (p : list Z) : Prop := Forall is_bit p.

(** ** Network model *)

(** [torch.nn.Linear]: [weight] has one row per output unit; [bias] is
    [None] when the layer was built with [bias=False]. *)
Record Linear : Type := mkLinear {
  weight : matrix;
  bias : option (list Q)
}.

(** [torch.nn.BatchNorm1d]: its learnt and running statistics. *)
Record BatchNorm1d : Type := mkBatchNorm1d {
  num_features : nat;
  bn_weight : list Q;
  bn_bias : list Q;
  running_mean : list Q;
  running_var : list Q
}.

(** The kinds of module that [Net] puts into its [nn.Sequential]. *)
Inductive nn_Module : Type :=
| nn_Linear (l : Linear)
| nn_activation
| nn_BatchNorm1d (b : BatchNorm1d).

(** A model is the ordered content of [self.sequential]; [model.modules()]
    also yields the two containers, which are not [Linear]. *)
Definition Net : Type := list nn_Module.

Section NetInit.

(** Fresh parameters of the [k]-th [nn.Linear] created, for [out] rows
    of [inp] columns (torch draws them at random). *)
Variable init_weight : nat -> nat -> nat -> matrix.
Variable init_bias : nat -> nat -> list Q.
Variable init_bn : nat -> BatchNorm1d.

Definition new_Linear (k inp out : nat) (with_bias : bool) : nn_Module :=
  nn_Linear {| weight := init_weight k inp out;
               bias := if with_bias then Some (init_bias k out) else None |}.

(** The body of [for ll in range(n_hidden)]. *)
Definition hidden_block (hidden_size : nat) (with_bias bn : bool) (ll : nat)
  : list nn_Module :=
  [nn_activation]
    ++ (if bn then [nn_BatchNorm1d (init_bn hidden_size)] else [])
    ++ [new_Linear (S ll) hidden_size hidden_size with_bias].

(** [Net.__init__]: the list handed to [nn.Sequential]. *)
Definition Net_init (in_dim out_dim hidden_size n_hidden : nat)
           (with_bias penultimate bn : bool) : Net :=
  let module0 := [new_Linear 0 in_dim hidden_size with_bias] in
  let module1 :=
    module0 ++ flat_map (hidden_block hidden_size with_bias bn) (seq 0 n_hidden) in
  let module2 :=
    if penultimate then
      module1 ++ [nn_activation]
              ++ (if bn then [nn_BatchNorm1d (init_bn hidden_size)] else [])
              ++ [new_Linear (S n_hidden) hidden_size 2 with_bias]
    else module1 in
  let hidden_size' := if penultimate then 2%nat else hidden_size in
  let k := if penultimate then S (S n_hidden) else S n_hidden in
  module2 ++ [nn_activation]
          ++ (if bn then [nn_BatchNorm1d (init_bn hidden_size')] else [])
          ++ [new_Linear k hidden_size' out_dim with_bias].

End NetInit.

(** [[module for module in model.modules() if type(module) == torch.nn.Linear]] *)
Fixpoint linear_layers (model : Net) : list Linear :=
  match model with
  | [] => []
  | nn_Linear l :: rest => l :: linear_layers rest
  | _ :: rest => linear_layers rest
  end.

(** ** Polytope analyzer *)

(** [v > t] on floats. *)
Definition Qgtb (v t : Q) : bool := negb (Qle_bool v t).

(** [(preactivation > t).astype('int')] *)
Definition threshold_mask (t : Q) (preactivation : matrix) : int_matrix :=
  map (map (fun v => if Qgtb v t then 1%Z else 0%Z)) preactivation.

(** [preactivation * binary_preactivation], element by element. *)
Definition mul_mask (preactivation : matrix) (binary : int_matrix) : matrix :=
  map (fun '(r, m) => map (fun '(v, b) => v * inject_Z b) (combine r m))
      (combine preactivation binary).

Definition dot (a w : list Q) : Q :=
  fold_right Qplus 0 (map (fun '(x, y) => x * y) (combine a w)).

(** [np.matmul(a, weights.T)]: the inner dimensions must agree. *)
Definition matmul_T (a weights : matrix) : result matrix :=
  if forallb (fun r => forallb (fun w => Nat.eqb (length r) (length w)) weights) a
  then Ok (map (fun r => map (dot r) weights) a)
  else Raise ValueError.

(** [m + bias] for a vector [bias] with one entry per column of [m]. *)
Definition add_bias (m : matrix) (b : list Q) : result matrix :=
  if forallb (fun r => Nat.eqb (length r) (length b)) m
  then Ok (map (fun r => map (fun '(v, c) => v + c) (combine r b)) m)
  else Raise ValueError.

(** The variables of the loop of [get_polytopes]. [preactivation_log]
    is a history of the local variable [preactivation], one entry per
    iteration; the source does not keep it. *)
Record loop_state : Type := mkState {
  polytope_memberships : list int_matrix;
  last_activations : matrix;
  penultimate_act : option matrix;
  preactivation_log : list matrix
}.

(** One iteration of [for layer_id, layer in enumerate(layers)]. *)
Definition layer_body (penultimate : bool) (len_layers : nat)
           (layer_id : nat) (layer : Linear) (st : loop_state)
  : result loop_state :=
  match bias layer with
  | None => Raise AttributeError
  | Some b =>
      prod <- matmul_T (last_activations st) (weight layer) ;;
      preactivation <- add_bias prod b ;;
      let is_last := (Z.of_nat layer_id =? Z.of_nat len_layers - 1)%Z in
      let binary_preactivation :=
        if is_last then threshold_mask (1 # 2) preactivation
        else threshold_mask 0 preactivation in
      let last_activations' := mul_mask preactivation binary_preactivation in
      Ok {| polytope_memberships := polytope_memberships st ++ [binary_preactivation];
            last_activations := last_activations';
            penultimate_act :=
              if penultimate && is_last then Some last_activations'
              else penultimate_act st;
            preactivation_log := preactivation_log st ++ [preactivation] |}
  end.

Fixpoint layer_loop (penultimate : bool) (len_layers : nat)
         (layer_id : nat) (layers : list Linear) (st : loop_state)
  : result loop_state :=
  match layers with
  | [] => Ok st
  | layer :: rest =>
      st' <- layer_body penultimate len_layers layer_id layer st ;;
      layer_loop penultimate len_layers (S layer_id) rest st'
  end.

Definition initial_state (train_x : matrix) : loop_state :=
  {| polytope_memberships := [];
     last_activations := train_x;
     penultimate_act := None;
     preactivation_log := [] |}.

(** The whole loop, from the state before the first iteration. *)
Definition run_layers (model : Net) (train_x : matrix) (penultimate : bool)
  : result loop_state :=
  let layers := linear_layers model in
  layer_loop penultimate (length layers) 0 layers (initial_state train_x).

(** [np.concatenate(arrays, axis = 1)]: fails on an empty list. *)
Fixpoint concatenate_axis1 (arrays : list int_matrix) : result int_matrix :=
  match arrays with
  | [] => Raise ValueError
  | [a] => Ok a
  | a :: rest =>
      r <- concatenate_axis1 rest ;;
      Ok (map (fun '(x, y) => x ++ y) (combine a r))
  end.

(** [get_polytopes]: the one-element list of identifier arrays, and the
    activations returned with it ([None] is Python's [None]). *)
Definition get_polytopes (model : Net) (train_x : matrix) (penultimate : bool)
  : result (list (list Z) * option matrix) :=
  st <- run_layers model train_x penultimate ;;
  patterns <- concatenate_axis1 (polytope_memberships st) ;;
  let ids := [map region_id patterns] in
  if penultimate then Ok (ids, penultimate_act st)
  else Ok (ids, Some (last_activations st)).

(** ** Gini impurity *)

(** [gini_impurity]: nothing guards the division by [denom]. On Python
    numbers a zero [denom] raises [ZeroDivisionError]; on numpy scalars it
    yields [nan] and a warning. Both are the [Raise] outcome. *)
Definition gini_impurity (P1 P2 : Q) : result Q :=
  let denom := P1 + P2 in
  if Qeq_bool denom 0 then Raise ZeroDivisionError
  else Ok (2 * (P1 / denom) * (P2 / denom)).

(** [np.unique]: the distinct values, in increasing order. *)
Fixpoint insert_unique (z : Z) (l : list Z) : list Z :=
  match l with
  | [] => [z]
  | y :: l' =>
      if (z <? y)%Z then z :: l
      else if (z =? y)%Z then l
      else y :: insert_unique z l'
  end.

Definition np_unique (l : list Z) : list Z := fold_right insert_unique [] l.

(** [predicts[polytope_memberships == l]]: a boolean mask must be as long
    as the array it indexes. *)
Definition boolean_index (polytope_memberships : list Z) (l : Z)
           (predicts : list Q) : result (list Q) :=
  if Nat.eqb (length polytope_memberships) (length predicts)
  then Ok (map snd (filter (fun '(m, _) => (m =? l)%Z)
                           (combine polytope_memberships predicts)))
  else Raise IndexError.

Definition np_sum (l : list Q) : Q := fold_right Qplus 0 l.

(** [np.array(l).mean()]: [nan] on an empty array. *)
Definition np_mean (l : list Q) : result Q :=
  match l with
  | [] => Raise EmptyMean
  | _ => Ok (np_sum l / inject_Z (Z.of_nat (length l)))
  end.

(** The body shared by the loops of [gini_impurity_mean] and
    [gini_impurity_list]: the impurity of region [l]. *)
Definition region_gini (polytope_memberships : list Z) (predicts : list Q)
           (l : Z) : result Q :=
  cur_l_idx <- boolean_index polytope_memberships l predicts ;;
  let pos_count := np_sum cur_l_idx in
  let neg_count := inject_Z (Z.of_nat (length cur_l_idx)) - pos_count in
  gini_impurity pos_count neg_count.

Fixpoint mapM {A B : Type} (f : A -> result B) (l : list A) : result (list B) :=
  match l with
  | [] => Ok []
  | a :: l' => b <- f a ;; bs <- mapM f l' ;; Ok (b :: bs)
  end.

(** [gini_impurity_mean]; [predicts] holds one rounded prediction per point. *)
Definition gini_impurity_mean (polytope_memberships : list Z)
           (predicts : list Q) : result Q :=
  gini_mean_score <-
    mapM (region_gini polytope_memberships predicts)
         (np_unique polytope_memberships) ;;
  np_mean gini_mean_score.

(** [gini_score[idx] = gini] for [idx = np.where(polytope_memberships == l)]. *)
Definition assign_where (polytope_memberships : list Z) (l : Z) (gini : Q)
           (gini_score : list Q) : list Q :=
  map (fun '(m, s) => if (m =? l)%Z then gini else s)
      (combine polytope_memberships gini_score).

Fixpoint gini_list_loop (polytope_memberships : list Z) (predicts : list Q)
         (ls : list Z) (gini_score : list Q) : result (list Q) :=
  match ls with
  | [] => Ok gini_score
  | l :: ls' =>
      gini <- region_gini polytope_memberships predicts l ;;
      gini_list_loop polytope_memberships predicts ls'
                     (assign_where polytope_memberships l gini gini_score)
  end.

(** [gini_impurity_list] *)
Definition gini_impurity_list (polytope_memberships : list Z)
           (predicts : list Q) : result (list Q) :=
  gini_list_loop polytope_memberships predicts
                 (np_unique polytope_memberships)
                 (map (fun _ => 0) polytope_memberships).

(** ** Hellinger distance *)

Open Scope R_scope.

Definition Rsum (l : list R) : R := fold_right Rplus 0 l.

(** [np.mean] of a real vector: [nan] on an empty one. *)
Definition Rmean (l : list R) : result R :=
  match l with
  | [] => Raise EmptyMean
  | _ => Ok (Rsum l / INR (length l))
  end.

(** [np.sum((np.sqrt(p) - np.sqrt(q)) ** 2, axis = 1)], one row. *)
Definition sq_diff_row (p q : list R) : R :=
  Rsum (map (fun '(a, b) => (sqrt a - sqrt b) ^ 2) (combine p q)).

(** [hellinger_explicit], for two arrays of one shape (every call site
    passes such arrays; numpy's broadcasting of unequal shapes is left out). *)
Definition hellinger_explicit (p q : list (list R)) : result R :=
  Rmean (map (fun '(pr, qr) => sqrt (sq_diff_row pr qr) / sqrt 2) (combine p q)).

(** ** Bayes posterior *)

Definition vec2 : Type := (R * R)%type.
Definition mat2 : Type := (vec2 * vec2)%type.

Definition vsub (x y : vec2) : vec2 := (fst x - fst y, snd x - snd y).

(** [np.eye(2)], [c * m], [np.linalg.det], [np.linalg.inv] on 2 x 2 arrays. *)
Definition eye2 : mat2 := ((1, 0), (0, 1)).
Definition mscale (c : R) (m : mat2) : mat2 :=
  ((c * fst (fst m), c * snd (fst m)), (c * fst (snd m), c * snd (snd m))).
Definition det2 (m : mat2) : R :=
  fst (fst m) * snd (snd m) - snd (fst m) * fst (snd m).
Definition inv2 (m : mat2) : mat2 :=
  ((snd (snd m) / det2 m, - snd (fst m) / det2 m),
   (- fst (snd m) / det2 m, fst (fst m) / det2 m)).

(** [d @ m @ d.T] for a row vector [d]. *)
Definition quad_form (d : vec2) (m : mat2) : R :=
  (fst d * fst (fst m) + snd d * fst (snd m)) * fst d
  + (fst d * snd (fst m) + snd d * snd (snd m)) * snd d.

Definition mu01 : vec2 := (-1, -1).
Definition mu02 : vec2 := (1, 1).
Definition mu11 : vec2 := (-1, 1).
Definition mu12 : vec2 := (1, -1).

Definition pdf_cov : mat2 := mscale 1 eye2.
Definition pdf_inv_cov : mat2 := inv2 pdf_cov.

Definition pdf_p0 (x : vec2) : R :=
  (exp (- quad_form (vsub x mu01) pdf_inv_cov)
   + exp (- quad_form (vsub x mu02) pdf_inv_cov))
  / (2 * PI * sqrt (det2 pdf_cov)).

Definition pdf_p1 (x : vec2) : R :=
  (exp (- quad_form (vsub x mu11) pdf_inv_cov)
   + exp (- quad_form (vsub x mu12) pdf_inv_cov))
  / (2 * PI * sqrt (det2 pdf_cov)).

(** [pdf] *)
Definition pdf (x : vec2) : list R :=
  let p0 := pdf_p0 x in
  let p1 := pdf_p1 x in
  [p1 / (p0 + p1); p0 / (p0 + p1)].

(** ** Dataset generator *)

(** [means] of [generate_gaussian_parity], in the order of the source. *)
Definition means : list vec2 := [(-1, -1); (1, 1); (1, -1); (-1, 1)].

(** [int(i < 2)]: the label of the points drawn around [means[i]]. *)
Definition component_label (i : nat) : Z := if (i <? 2)%nat then 1%Z else 0%Z.

(** [int(n / 4)]: true division, then truncation towards zero. *)
Definition quarter (n : Z) : Z := Z.quot n 4.

Section Generator.

(** numpy's global random state, and [np.random.multivariate_normal]
    with covariance [cov_scale * np.eye(2)] drawing [size] points. *)
Variable rng : Type.
Variable multivariate_normal : rng -> vec2 -> R -> nat -> list vec2 * rng.

(** The list comprehension that draws one blob per mean. *)
Fixpoint draw_blobs (g : rng) (ms : list vec2) (cov_scale : R) (size : nat)
  : list vec2 * rng :=
  match ms with
  | [] => ([], g)
  | mean :: ms' =>
      let '(pts, g1) := multivariate_normal g mean cov_scale size in
      let '(rest, g2) := draw_blobs g1 ms' cov_scale size in
      (pts ++ rest, g2)
  end.

(** The rotation by [angle_params] degrees of one point. *)
Definition rotate (angle_params : R) (b : vec2) : vec2 :=
  (fst b * cos (angle_params * PI / 180) + snd b * sin (angle_params * PI / 180),
   - fst b * sin (angle_params * PI / 180) + snd b * cos (angle_params * PI / 180)).

(** [Y]: [np.ones(size) * int(i < 2)] for every [i], concatenated. *)
Definition labels (size : nat) : list Z :=
  flat_map (fun i => repeat (component_label i) size) (seq 0 (length means)).

(** [generate_gaussian_parity]: a negative size is refused by numpy
    ([ValueError]); the default [angle_params=None] cannot be multiplied
    ([TypeError]). The unused parameters [k] and [acorn] are left out. *)
Definition generate_gaussian_parity (g : rng) (n : Z) (cov_scale : R)
           (angle_params : option R) : result (list vec2 * list Z * rng) :=
  if (quarter n <? 0)%Z then Raise ValueError
  else
    let size := Z.to_nat (quarter n) in
    let '(blob, g') := draw_blobs g means cov_scale size in
    let Y := labels size in
    match angle_params with
    | None => Raise TypeError
    | Some a => Ok (map (rotate a) blob, Y, g')
    end.

End Generator.

(** The generating mixture, in the words of the specification: four
    isotropic Gaussians of covariance [s * I] around [means], each with a
    quarter of the points, the class of a component being the label that
    the generator gives its points. *)
Definition sq_dist (x mu : vec2) : R :=
  (fst x - fst mu) ^ 2 + (snd x - snd mu) ^ 2.

Definition gaussian_density (s : R) (mu x : vec2) : R :=
  exp (- sq_dist x mu / (2 * s)) / (2 * PI * s).

Definition class_density (s : R) (c : Z) (x : vec2) : R :=
  Rsum (map (fun i => if (component_label i =? c)%Z
                      then gaussian_density s (nth i means (0, 0)) x / 4
                      else 0)
            (seq 0 (length means))).

Definition true_posterior (s : R) (c : Z) (x : vec2) : R :=
  class_density s c x / (class_density s 0 x + class_density s 1 x).

Close Scope R_scope.

(** ** Reference notions used by the statements *)

(** The exact value of a pattern read as a little-endian binary number:
    bit [i] contributes [2^i]. *)
Fixpoint binary_value (p : list Z) : Z :=
  match p with
  | [] => 0%Z
  | b :: p' => (b + 2 * binary_value p')%Z
  end.



(** [affine_chain a layers pres ms]: [pres] are the values
    [activations . weight^T + bias] of the successive [layers], started on
    the activations [a] and continued, after each layer, on its
    pre-activation gated by the matching mask of [ms]. *)
Inductive affine_chain : matrix -> list Linear -> list matrix -> list int_matrix -> Prop :=
| chain_nil (a : matrix) : affine_chain a [] [] []
| chain_cons (a : matrix) (l : Linear) (ls : list Linear) (b : list Q)
             (pr pre : matrix) (m : int_matrix)
             (pres : list matrix) (ms : list int_matrix) :
    bias l = Some b ->
    matmul_T a (weight l) = Ok pr ->
    add_bias pr b = Ok pre ->
    affine_chain (mul_mask pre m) ls pres ms ->
    affine_chain a (l :: ls) (pre :: pres) (m :: ms).

(** Shapes that fit: every layer has a bias, as many bias entries as rows
    of weights, and rows as wide as the activations it receives. *)
Fixpoint layers_ok (d : nat) (layers : list Linear) : bool :=
  match layers with
  | [] => true
  | l :: rest =>
      match bias l with
      | None => false
      | Some b =>
          forallb (fun w => Nat.eqb (length w) d) (weight l)
          && Nat.eqb (length b) (length (weight l))
          && layers_ok (length (weight l)) rest
      end
  end.

Definition batch_ok (d : nat) (x : matrix) : bool :=
  forallb (fun r => Nat.eqb (length r) d) x.

(** ** Concrete models and inputs used below *)

(** A one-unit layer that returns its input. *)
Definition unit_layer : Linear := {| weight := [[1]]; bias := Some [0] |}.

(** [Linear(1, 1)], the nonlinearity, [Linear(1, 1)]. *)
Definition two_layer_model : Net :=
  [nn_Linear unit_layer; nn_activation; nn_Linear unit_layer].

Definition some_batchnorm : BatchNorm1d :=
  {| num_features := 1; bn_weight := [3]; bn_bias := [1];
     running_mean := [0]; running_var := [1] |}.

(** The same two layers with a normalization layer between them. *)
Definition two_layer_model_bn : Net :=
  [nn_Linear unit_layer; nn_activation; nn_BatchNorm1d some_batchnorm;
   nn_Linear unit_layer].

(** Parameters for [Net(1, 1, hidden_size=64, n_hidden=0, bias=True)]:
    64 hidden units that copy the input, and an output unit that copies
    the first hidden unit. The activation pattern has 65 bits. *)
Definition wide_weight (k inp out : nat) : matrix :=
  match k with
  | O => repeat [1] out
  | _ => [1 :: repeat 0 (inp - 1)]
  end.
Definition wide_bias (k out : nat) : list Q := repeat 0 out.
Definition wide_bn (n : nat) : BatchNorm1d :=
  {| num_features := n; bn_weight := repeat 1 n; bn_bias := repeat 0 n;
     running_mean := repeat 0 n; running_var := repeat 1 n |}.
Definition wide_model : Net :=
  Net_init wide_weight wide_bias wide_bn 1 1 64 0 true false false.

(** The parts of the loop state that the source's own variables
    [polytope_memberships] and [last_activations] hold, with the history. *)
Definition erase_penultimate (st : loop_state)
  : list int_matrix * matrix * list matrix :=
  (polytope_memberships st, last_activations st, preactivation_log st).

Definition map_result {A B : Type} (f : A -> B) (r : result A) : result B :=
  match r with
  | Ok a => Ok (f a)
  | Raise e => Raise e
  end.

(** ** Probability arrays *)

Open Scope R_scope.

(** A valid discrete probability vector. *)
Definition prob_row (r : list R) : Prop :=
  Forall (fun v => 0 <= v) r /\ Rsum r = 1.

(** Two arrays with as many rows, and as many entries row by row. *)
Definition same_shape (p q : list (list R)) : Prop :=
  Forall2 (fun pr qr => length pr = length qr) p q.

(** Two rows with disjoint supports: no index carries mass in both. *)
Definition disjoint_support (pr qr : list R) : Prop :=
  Forall2 (fun a b => a = 0 \/ b = 0) pr qr.

(** The vector that [hellinger_explicit] averages. *)
Definition row_distances (p q : list (list R)) : list R :=
  map (fun '(pr, qr) => sqrt (sq_diff_row pr qr) / sqrt 2) (combine p q).

(** The distance that the specification gives one pair of rows. *)
Definition hellinger_row (pr qr : list R) : R :=
  sqrt (Rsum (map (fun '(a, b) => (sqrt a - sqrt b) ^ 2) (combine pr qr)))
  / sqrt 2.

Close Scope R_scope.

(** ** A sampler for concrete runs of the generator *)

(** A degenerate random source that returns the mean [size] times. *)
Definition mean_sampler (g : unit) (mean : vec2) (cov_scale : R) (size : nat)
  : list vec2 * unit :=
  (repeat mean size, g).

(** * Further definitions *)

From Stdlib Require Import Permutation Sorted.

(** ** Further notions for the network and the analyzer *)

(** The number of units of a list of affine layers: one per row of weights. *)
Definition total_units (layers : list Linear) : nat :=
  fold_right (fun l acc => (length (weight l) + acc)%nat) 0%nat layers.

(** An initializer with the shapes of [nn.Linear]: [out] rows of [inp]
    weights, [out] bias entries. *)
Definition init_shapes_ok (init_weight : nat -> nat -> nat -> matrix)
           (init_bias : nat -> nat -> list Q) : Prop :=
  (forall k inp out, length (init_weight k inp out) = out) /\
  (forall k inp out, Forall (fun r => length r = inp) (init_weight k inp out)) /\
  (forall k out, length (init_bias k out) = out).

(** An initializer that sets every weight to 1 and every bias to 0. *)
Definition ones_weight (k inp out : nat) : matrix := repeat (repeat 1 inp) out.
Definition zeros_bias (k out : nat) : list Q := repeat 0 out.

(** The [Linear] that [new_Linear] wraps. *)
Definition fresh_Linear (init_weight : nat -> nat -> nat -> matrix)
           (init_bias : nat -> nat -> list Q) (k inp out : nat) (with_bias : bool)
  : Linear :=
  {| weight := init_weight k inp out;
     bias := if with_bias then Some (init_bias k out) else None |}.

Section GetModel.

Variable init_weight : nat -> nat -> nat -> matrix.
Variable init_bias : nat -> nat -> list Q.
Variable init_bn : nat -> BatchNorm1d.

(** [model.cuda()]: torch moves the parameters to the device, or fails
    when there is none. *)
Variable cuda : Net -> result Net.

(** [get_model]: a [Net] with biases, moved to the device on request. *)
Definition get_model (hidden_size n_hidden in_dim out_dim : nat)
           (penultimate use_cuda bn : bool) : result Net :=
  let model := Net_init init_weight init_bias init_bn in_dim out_dim
                        hidden_size n_hidden true penultimate bn in
  if use_cuda then cuda model else Ok model.

End GetModel.

(** Row-wise concatenation of the arrays of two lists, pair by pair. *)
Definition zip_app {A : Type} (l1 l2 : list (list A)) : list (list A) :=
  map (fun '(a, b) => a ++ b) (combine l1 l2).

(** ** The forward pass *)

Section Forward.

(** The module given as [activation], as a function of one entry, and
    the forward computation of torch's [BatchNorm1d]. *)
Variable activation : Q -> Q.
Variable batch_norm : BatchNorm1d -> matrix -> result matrix.




End Forward.




(** ** Predictions *)

(** A rounded prediction: 0 or 1, as a number. *)
Definition binary_prediction (p : Q) : Prop := p == 0 \/ p == 1.

(** ** Collected results *)

(** What a repetition stores under one index: the loss traces of its
    models, or one number per model. *)
Inductive entry : Type :=
| Traces (traces : list (list Q))
| Series (values : list Q).

(** The arrays that [extract_losses] returns: the final losses, one row
    per repetition, and for every further index the entries found there,
    one per repetition. ([np.array] is taken on rectangular lists, where
    it keeps the nesting.) *)
Inductive column : Type :=
| Final (rows : list (list Q))
| Column (rows : list entry).

(** [l[-1]] *)
Definition last_item (l : list Q) : result Q :=
  match l with
  | [] => Raise IndexError
  | _ :: _ => Ok (last l 0)
  end.

(** [err[idx]] *)
Definition item (err : list entry) (idx : nat) : result entry :=
  match nth_error err idx with
  | Some e => Ok e
  | None => Raise IndexError
  end.

(** The body of [for losses_list, *_ in rep_full_list]: unpacking needs
    one item at least; a number has no [[-1]]. *)
Definition final_loss (rep : list entry) : result (list Q) :=
  match rep with
  | [] => Raise ValueError
  | Traces losses_list :: _ => mapM last_item losses_list
  | Series [] :: _ => Ok []
  | Series (_ :: _) :: _ => Raise TypeError
  end.

(** [extract_losses] *)
Definition extract_losses (rep_full_list : list (list entry)) : result (list column) :=
  full_loss_list <- mapM final_loss rep_full_list ;;
  match rep_full_list with
  | [] => Raise IndexError
  | first :: _ =>
      rest <- mapM (fun idx =>
                      rows <- mapM (fun err => item err idx) rep_full_list ;;
                      Ok (Column rows))
                   (seq 1 (length first - 1)) ;;
      Ok (Final full_loss_list :: rest)
  end.

(** What [run_experiment] has computed for one model of a sweep. *)
Record step_metrics : Type := mkStep {
  losses : list Q;
  n_poly : Z;
  train_loss : Q;
  test_loss : Q;
  train_acc : Q;
  test_acc : Q;
  hellinger_loss : Q;
  gini_impurity_train : Q;
  gini_impurity_test : Q
}.

(** The list that [run_experiment] appends to [rep_full_list] after a
    sweep, from the values appended for every model: the lists named
    [train_acc_list] and [test_acc_list] receive [1 - train_acc] and
    [1 - test_acc], and the last three receive 0. *)
Definition rep_record (steps : list step_metrics) : list entry :=
  [ Traces (map losses steps);
    Series (map train_loss steps);
    Series (map test_loss steps);
    Series (map (fun s => 1 - train_acc s) steps);
    Series (map (fun s => 1 - test_acc s) steps);
    Series (map hellinger_loss steps);
    Series (map (fun s => inject_Z (n_poly s)) steps);
    Series (map gini_impurity_train steps);
    Series (map gini_impurity_test steps);
    Series (map (fun _ => 0) steps);
    Series (map (fun _ => 0) steps);
    Series (map (fun _ => 0) steps) ].

(** The attributes that [run_experiment] sets from [extract_losses]. *)
Module Res.
Record t : Type := mk {
  full_loss_list : column;
  train_loss_list : column;
  test_loss_list : column;
  test_err_list : column;
  train_err_list : column;
  hellinger_list : column;
  poly_list : column;
  gini_train : column;
  gini_test : column;
  avg_stab : column;
  bias : column;
  var : column
}.
End Res.

(** The assignment of the twelve attributes: a list of another length
    cannot be unpacked. *)
Definition assign_result (return_list : list column) : result Res.t :=
  match return_list with
  | [c0; c1; c2; c3; c4; c5; c6; c7; c8; c9; c10; c11] =>
      Ok (Res.mk c0 c1 c2 c3 c4 c5 c6 c7 c8 c9 c10 c11)
  | _ => Raise ValueError
  end.

(** The end of [run_experiment]: the records of the repetitions go
    through [extract_losses] into the attributes of the result. *)
Definition collect_results (reps : list (list step_metrics)) : result Res.t :=
  return_list <- extract_losses (map rep_record reps) ;;
  assign_result return_list.

(** ** Datasets *)

(** [a[idx]] for an array of indices: every index must be in range. *)
Definition take {A : Type} (a : list A) (idx : list nat) : result (list A) :=
  mapM (fun i => match nth_error a i with
                 | Some v => Ok v
                 | None => Raise IndexError
                 end) idx.

(** [a[i]] *)
Definition get_row {A : Type} (a : list A) (i : nat) : result A :=
  match nth_error a i with
  | Some v => Ok v
  | None => Raise IndexError
  end.

(** [a[i] = v] on a copy of [a]. *)
Definition set_row {A : Type} (a : list A) (i : nat) (v : A) : result (list A) :=
  if (i <? length a)%nat then Ok (firstn i a ++ v :: skipn (S i) a)
  else Raise IndexError.

(** [torch.FloatTensor(y).unsqueeze(-1)]: one column. *)
Definition unsqueeze (y : list Z) : list (list Z) := map (fun v => [v]) y.

(** What [get_dataset] returns; [hybrid_sets] is there when asked for. *)
Record dataset : Type := mkDataset {
  train_x : list vec2;
  train_y : list (list Z);
  test_x : list vec2;
  test_y : list (list Z);
  hybrid_sets : option (list (list vec2 * list (list Z)))
}.

Section GetDataset.

(** numpy's random state with its two samplers, Python's [random] with
    [random.sample(range(0, size), k)], and torch: whether a device is
    there, the move to it and [torch.nn.functional.one_hot]. *)
Variable rng : Type.
Variable multivariate_normal : rng -> vec2 -> R -> nat -> list vec2 * rng.
Variable permutation : rng -> nat -> list nat * rng.
Variable py_rng : Type.
Variable random_sample : py_rng -> nat -> nat -> result (list nat * py_rng).
Variable is_available : bool.
Variable cuda_x : list vec2 -> result (list vec2).
Variable cuda_y : list (list Z) -> result (list (list Z)).
Variable one_hot : list Z -> result (list (list Z)).

(** The three lines met three times in [get_dataset]: generate [n]
    points with angle 0, draw a permutation of [n], index points and
    labels by it. *)
Definition shuffled (g : rng) (n : nat) (cov_scale : R)
  : result (list vec2 * list Z * rng) :=
  d <- generate_gaussian_parity multivariate_normal g (Z.of_nat n) cov_scale
                                (Some 0%R) ;;
  let '(D_x, D_y, g1) := d in
  let '(D_perm, g2) := permutation g1 n in
  D_x' <- take D_x D_perm ;;
  D_y' <- take D_y D_perm ;;
  Ok (D_x', D_y', g2).

(** The loop over [rand_idx]. *)
Fixpoint hybrid_loop (train_x : list vec2) (train_y : list Z)
         (ghost_x : list vec2) (ghost_y : list Z) (rand_idx : list nat)
  : result (list (list vec2 * list (list Z))) :=
  match rand_idx with
  | [] => Ok []
  | rand_i :: rest =>
      gx <- get_row ghost_x rand_i ;;
      gy <- get_row ghost_y rand_i ;;
      hybrid_x <- set_row train_x rand_i gx ;;
      hybrid_y <- set_row train_y rand_i gy ;;
      hybrid_x' <- cuda_x hybrid_x ;;
      hybrid_y' <- cuda_y (unsqueeze hybrid_y) ;;
      tail <- hybrid_loop train_x train_y ghost_x ghost_y rest ;;
      Ok ((hybrid_x', hybrid_y') :: tail)
  end.

(** [get_dataset]. The settings of the default device and tensor type
    have no effect on the values and are left out; the conversion to
    [FloatTensor] keeps the numbers. *)
Definition get_dataset (g : rng) (pg : py_rng) (N : nat) (one_hot_flag : bool)
           (cov_scale : R) (include_hybrid : bool)
  : result (dataset * rng * py_rng) :=
  let use_cuda := is_available in
  first_part <-
    (if include_hybrid then
       d <- shuffled g (2 * N) cov_scale ;;
       let '(D_x, D_y, g1) := d in
       let train_x := firstn N D_x in
       let train_y := firstn N D_y in
       let ghost_x := skipn N D_x in
       let ghost_y := skipn N D_y in
       s <- random_sample pg (N - 1) (N / 10) ;;
       let '(rand_idx, pg1) := s in
       hybrid <- hybrid_loop train_x train_y ghost_x ghost_y rand_idx ;;
       Ok (train_x, train_y, Some hybrid, g1, pg1)
     else
       d <- shuffled g N cov_scale ;;
       let '(train_x, train_y, g1) := d in
       Ok (train_x, train_y, None, g1, pg)) ;;
  let '(train_x, train_y, hybrid, g1, pg1) := first_part in
  t <- shuffled g1 (2 * N) cov_scale ;;
  let '(test_x, test_y, g2) := t in
  ys <- (if one_hot_flag then
           a <- one_hot train_y ;; b <- one_hot test_y ;; Ok (a, b)
         else Ok (unsqueeze train_y, unsqueeze test_y)) ;;
  let '(train_y', test_y') := ys in
  moved <- (if use_cuda then
              a <- cuda_x train_x ;; b <- cuda_y train_y' ;;
              c <- cuda_x test_x ;; d <- cuda_y test_y' ;;
              Ok (a, b, c, d)
            else Ok (train_x, train_y', test_x, test_y')) ;;
  let '(tx, ty, sx, sy) := moved in
  Ok ({| train_x := tx; train_y := ty; test_x := sx; test_y := sy;
         hybrid_sets := hybrid |}, g2, pg1).

End GetDataset.


(** * Properties *)

Unset Implicit Arguments.

(** ** Region identifiers *)

Module Int64Facts.
Import Int64.
Local Open Scope Z_scope.

Lemma modulus_pos : 0 < modulus.
Proof. reflexivity. Qed.

Lemma wrap_mod (z : Z) : wrap z mod modulus = z mod modulus.
Proof.
  unfold wrap.
  rewrite Zminus_mod, Zmod_mod, <- Zminus_mod.
  f_equal. lia.
Qed.

Lemma wrap_range (z : Z) : - half_modulus <= wrap z < half_modulus.
Proof.
  unfold wrap.
  pose proof (Z.mod_pos_bound (z + half_modulus) modulus modulus_pos) as H.
  change modulus with (2 * half_modulus) in *. lia.
Qed.

(** Two values of the int64 range that agree modulo [2^64] are equal. *)
Lemma wrap_inj_mod (a b : Z) :
  wrap a = wrap b <-> a mod modulus = b mod modulus.
Proof.
  split; intros H.
  - rewrite <- (wrap_mod a), <- (wrap_mod b). now rewrite H.
  - unfold wrap.
    rewrite (Zplus_mod a), (Zplus_mod b), H. reflexivity.
Qed.

Lemma add_mod (a b : Z) : add a b mod modulus = (a + b) mod modulus.
Proof. apply wrap_mod. Qed.

Lemma mul_mod (a b : Z) : mul a b mod modulus = (a * b) mod modulus.
Proof. apply wrap_mod. Qed.

Lemma pow_mod (b : Z) (e : nat) :
  pow b e mod modulus = (b ^ Z.of_nat e) mod modulus.
Proof.
  induction e as [|e IH].
  - reflexivity.
  - cbn [pow]. rewrite mul_mod, Nat2Z.inj_succ, Z.pow_succ_r by lia.
    rewrite Zmult_mod, IH, <- Zmult_mod. reflexivity.
Qed.

(** From exponent 64 on, the powers of two are all zero. *)
Lemma pow2_overflow (e : nat) : (64 <= e)%nat -> pow 2 e = 0.
Proof.
  intros He.
  assert (Hm : pow 2 e mod modulus = 0).
  { rewrite pow_mod.
    replace (Z.of_nat e) with (64 + (Z.of_nat e - 64)) by lia.
    rewrite Z.pow_add_r by lia.
    change (2 ^ 64) with modulus.
    rewrite Z.mul_comm. apply Z_mod_mult. }
  assert (Hr : - half_modulus <= pow 2 e < half_modulus).
  { destruct e as [|e']; [lia|]. cbn [pow]. apply wrap_range. }
  unfold modulus, half_modulus in *.
  apply Z.mod_divide in Hm; [|lia].
  destruct Hm as [k Hk]. lia.
Qed.

End Int64Facts.

Section RegionId.
Import Int64 Int64Facts.
Local Open Scope Z_scope.

Lemma tensordot_row_mod (p : list Z) : forall k : nat,
  tensordot_row p (map (pow 2) (seq k (length p))) mod modulus
  = (2 ^ Z.of_nat k * binary_value p) mod modulus.
Proof.
  induction p as [|b p IH]; intros k.
  - cbn. now rewrite Z.mul_0_r.
  - cbn [length seq map tensordot_row binary_value].
    rewrite add_mod, Zplus_mod, mul_mod, IH.
    rewrite (Zmult_mod b), pow_mod, <- Zmult_mod, <- Zplus_mod.
    f_equal. rewrite Nat2Z.inj_succ, Z.pow_succ_r by lia. ring.
Qed.

Lemma region_id_mod (p : list Z) :
  region_id p mod modulus = binary_value p mod modulus.
Proof.
  unfold region_id, pow2_arange, arange.
  rewrite tensordot_row_mod. f_equal.
  change (Z.of_nat 0) with 0. rewrite Z.pow_0_r. lia.
Qed.

Lemma binary_value_range (p : list Z) :
  pattern_ok p -> 0 <= binary_value p < 2 ^ Z.of_nat (length p).
Proof.
  induction 1 as [|b p Hb _ IH].
  - cbn. lia.
  - cbn [binary_value length]. rewrite Nat2Z.inj_succ, Z.pow_succ_r by lia.
    destruct Hb; subst; lia.
Qed.

Lemma binary_value_inj (a : list Z) : forall b : list Z,
  pattern_ok a -> pattern_ok b -> length a = length b ->
  binary_value a = binary_value b -> a = b.
Proof.
  induction a as [|x a IH]; intros [|y b] Ha Hb Hlen Hv; try discriminate.
  - reflexivity.
  - inversion Ha as [|? ? Hx Ha']; inversion Hb as [|? ? Hy Hb']; subst.
    cbn [binary_value] in Hv.
    assert (x = y) by (destruct Hx, Hy; subst; lia). subst y.
    f_equal. apply IH; auto. lia.
Qed.

(** Up to 64 units the identifier determines the pattern. *)
Lemma region_id_inj_upto_64 (a b : list Z) :
  pattern_ok a -> pattern_ok b -> length a = length b ->
  (length a <= 64)%nat ->
  region_id a = region_id b -> a = b.
Proof.
  intros Ha Hb Hlen H64 Hid.
  apply binary_value_inj; auto.
  assert (Hm : binary_value a mod modulus = binary_value b mod modulus).
  { rewrite <- !region_id_mod. now rewrite Hid. }
  pose proof (binary_value_range a Ha) as Ra.
  pose proof (binary_value_range b Hb) as Rb.
  assert (Hp : forall n : nat, (n <= 64)%nat -> 2 ^ Z.of_nat n <= modulus).
  { intros n Hn. unfold modulus. apply Z.pow_le_mono_r; lia. }
  pose proof (Hp _ H64) as Pa.
  rewrite <- Hlen in Rb.
  rewrite !Z.mod_small in Hm; lia.
Qed.

End RegionId.

(** ** The loop of the polytope analyzer *)

Section Analyzer.



Lemma layer_body_inv (pen : bool) (L k : nat) (l : Linear) (st st' : loop_state) :
  layer_body pen L k l st = Ok st' ->
  exists b pr pre,
    bias l = Some b /\
    matmul_T (last_activations st) (weight l) = Ok pr /\
    add_bias pr b = Ok pre /\
    let t := if (Z.of_nat k =? Z.of_nat L - 1)%Z then 1 # 2 else 0 in
    polytope_memberships st' = polytope_memberships st ++ [threshold_mask t pre] /\
    preactivation_log st' = preactivation_log st ++ [pre] /\
    last_activations st' = mul_mask pre (threshold_mask t pre) /\
    penultimate_act st' =
      (if pen && (Z.of_nat k =? Z.of_nat L - 1)%Z
       then Some (last_activations st') else penultimate_act st).
Proof.
  unfold layer_body. intros H.
  destruct (bias l) as [b|]; [|discriminate].
  destruct (matmul_T (last_activations st) (weight l)) as [pr|e] eqn:Em;
    [|discriminate].
  cbn [bind] in H.
  destruct (add_bias pr b) as [pre|e] eqn:Ea; [|discriminate].
  cbn [bind] in H. injection H as <-.
  exists b, pr, pre. repeat split; auto; cbn;
    destruct (Z.of_nat k =? Z.of_nat L - 1)%Z; reflexivity.
Qed.

(** What a run of the loop from iteration [k] adds to the state. *)
Lemma layer_loop_inv (pen : bool) (L : nat) (layers : list Linear) :
  forall (k : nat) (st st' : loop_state),
    layer_loop pen L k layers st = Ok st' ->
    exists pres ms,
      preactivation_log st' = preactivation_log st ++ pres /\
      polytope_memberships st' = polytope_memberships st ++ ms /\
      affine_chain (last_activations st) layers pres ms /\
      length pres = length layers /\
      length ms = length layers /\
      forall j pre m,
        nth_error pres j = Some pre -> nth_error ms j = Some m ->
        m = threshold_mask
              (if (Z.of_nat (k + j) =? Z.of_nat L - 1)%Z then 1 # 2 else 0) pre.
Proof.
  induction layers as [|l layers IH]; intros k st st' H.
  - cbn in H. injection H as <-. exists [], [].
    rewrite !app_nil_r. repeat split; auto; try constructor.
    intros [|j] ? ? Hj; discriminate.
  - cbn [layer_loop] in H.
    destruct (layer_body pen L k l st) as [st1|e] eqn:E1; [|discriminate].
    cbn [bind] in H.
    apply layer_body_inv in E1.
    destruct E1 as (b & pr & pre & Hb & Hm & Ha & Hms & Hlog & Hact & _).
    apply IH in H.
    destruct H as (pres & ms & Hlog' & Hms' & Hch & Hl1 & Hl2 & Hth).
    set (t := if (Z.of_nat k =? Z.of_nat L - 1)%Z then 1 # 2 else 0) in *.
    exists (pre :: pres), (threshold_mask t pre :: ms).
    rewrite Hlog', Hlog, Hms', Hms, <- !app_assoc. cbn [app length].
    repeat split; auto.
    + econstructor; eauto. now rewrite <- Hact.
    + intros [|j] pre' m' Hp Hq; cbn [nth_error] in Hp, Hq.
      * injection Hp as <-. injection Hq as <-.
        now rewrite Nat.add_0_r.
      * replace (k + S j)%nat with (S k + j)%nat by lia. now apply Hth.
Qed.

End Analyzer.

Section AnalyzerTotal.

Lemma batch_ok_iff (d : nat) (x : matrix) :
  batch_ok d x = true <-> Forall (fun r => length r = d) x.
Proof.
  unfold batch_ok. rewrite forallb_forall, Forall_forall.
  split; intros H r Hr; specialize (H r Hr); now apply Nat.eqb_eq.
Qed.

Lemma matmul_T_ok (d : nat) (a w : matrix) :
  batch_ok d a = true -> batch_ok d w = true ->
  matmul_T a w = Ok (map (fun r => map (dot r) w) a).
Proof.
  intros Ha Hw. unfold matmul_T.
  replace (forallb _ a) with true; [reflexivity|].
  symmetry. apply forallb_forall. intros r Hr.
  apply forallb_forall. intros c Hc.
  apply batch_ok_iff in Ha, Hw. rewrite Forall_forall in Ha, Hw.
  apply Nat.eqb_eq. now rewrite (Ha r Hr), (Hw c Hc).
Qed.

Lemma add_bias_ok (m : matrix) (b : list Q) :
  batch_ok (length b) m = true ->
  add_bias m b = Ok (map (fun r => map (fun '(v, c) => v + c) (combine r b)) m).
Proof.
  intros H. unfold add_bias. unfold batch_ok in H. now rewrite H.
Qed.

Lemma mul_mask_threshold_rows (t : Q) (d : nat) (pre : matrix) :
  batch_ok d pre = true ->
  batch_ok d (mul_mask pre (threshold_mask t pre)) = true.
Proof.
  rewrite !batch_ok_iff. unfold mul_mask, threshold_mask.
  induction 1 as [|r pre Hr _ IH]; cbn [map combine]; constructor; auto.
  rewrite length_map, length_combine, length_map. lia.
Qed.

Lemma layer_body_total (pen : bool) (L k d : nat) (l : Linear) (ls : list Linear)
      (st : loop_state) :
  layers_ok d (l :: ls) = true ->
  batch_ok d (last_activations st) = true ->
  exists st', layer_body pen L k l st = Ok st' /\
              batch_ok (length (weight l)) (last_activations st') = true.
Proof.
  cbn [layers_ok]. intros Hl Hx.
  unfold layer_body.
  destruct (bias l) as [b|]; [|discriminate].
  apply andb_true_iff in Hl. destruct Hl as [Hl _].
  apply andb_true_iff in Hl. destruct Hl as [Hw Hb].
  apply Nat.eqb_eq in Hb.
  rewrite (matmul_T_ok d); auto. cbn [bind].
  set (pr := map (fun r => map (dot r) (weight l)) (last_activations st)).
  assert (Hpr : batch_ok (length b) pr = true).
  { apply batch_ok_iff, Forall_forall. intros r Hr. subst pr.
    apply in_map_iff in Hr. destruct Hr as (r0 & <- & _).
    now rewrite length_map. }
  rewrite (add_bias_ok _ _ Hpr). cbn [bind].
  eexists. split; [reflexivity|]. cbn [last_activations].
  assert (Hpre : batch_ok (length (weight l))
            (map (fun r => map (fun '(v, c) => v + c) (combine r b)) pr) = true).
  { apply batch_ok_iff, Forall_forall. intros r Hr.
    apply in_map_iff in Hr. destruct Hr as (r0 & <- & Hr0).
    rewrite length_map, length_combine.
    apply batch_ok_iff in Hpr. rewrite Forall_forall in Hpr.
    rewrite (Hpr r0 Hr0). lia. }
  destruct (Z.of_nat k =? Z.of_nat L - 1)%Z;
    now apply mul_mask_threshold_rows.
Qed.

(** On shapes that fit, the loop runs to its end. *)
Lemma layer_loop_total (pen : bool) (L : nat) (layers : list Linear) :
  forall (k d : nat) (st : loop_state),
    layers_ok d layers = true ->
    batch_ok d (last_activations st) = true ->
    exists st', layer_loop pen L k layers st = Ok st'.
Proof.
  induction layers as [|l layers IH]; intros k d st Hl Hx.
  - eexists. reflexivity.
  - destruct (layer_body_total pen L k d l layers st Hl Hx) as (st1 & E1 & Hx1).
    cbn [layer_loop]. rewrite E1. cbn [bind].
    apply (IH (S k) (length (weight l))); auto.
    cbn [layers_ok] in Hl. destruct (bias l); [|discriminate].
    apply andb_true_iff in Hl. tauto.
Qed.

End AnalyzerTotal.



(** ** The penultimate flag *)

Section Penultimate.

Lemma layer_body_erase (L k : nat) (l : Linear) (st1 st2 : loop_state) :
  erase_penultimate st1 = erase_penultimate st2 ->
  map_result erase_penultimate (layer_body true L k l st1)
  = map_result erase_penultimate (layer_body false L k l st2).
Proof.
  unfold erase_penultimate. intros H. injection H as Hm Ha Hl.
  unfold layer_body. rewrite Hm, Ha, Hl.
  destruct (bias l) as [b|]; [|reflexivity].
  destruct (matmul_T (last_activations st2) (weight l)) as [pr|e];
    [|reflexivity].
  cbn [bind]. destruct (add_bias pr b) as [pre|e]; reflexivity.
Qed.

(** Both settings of the flag drive the loop through the same masks,
    activations and pre-activations, or fail alike. *)
Lemma layer_loop_erase (L : nat) (layers : list Linear) :
  forall (k : nat) (st1 st2 : loop_state),
    erase_penultimate st1 = erase_penultimate st2 ->
    map_result erase_penultimate (layer_loop true L k layers st1)
    = map_result erase_penultimate (layer_loop false L k layers st2).
Proof.
  induction layers as [|l layers IH]; intros k st1 st2 H.
  - cbn. now rewrite H.
  - cbn [layer_loop].
    pose proof (layer_body_erase L k l st1 st2 H) as Hb.
    destruct (layer_body true L k l st1) as [s1|e1];
      destruct (layer_body false L k l st2) as [s2|e2];
      cbn [map_result bind] in *; try discriminate.
    + apply IH. congruence.
    + congruence.
Qed.

(** With the flag set, what is captured is the value that
    [last_activations] has after the last iteration. *)
Lemma layer_loop_captures_last (L : nat) (layers : list Linear) :
  forall (k : nat) (st st' : loop_state),
    layers <> [] -> (k + length layers = L)%nat ->
    layer_loop true L k layers st = Ok st' ->
    penultimate_act st' = Some (last_activations st').
Proof.
  induction layers as [|l layers IH]; intros k st st' Hne Hk H;
    [congruence|].
  cbn [layer_loop] in H.
  destruct (layer_body true L k l st) as [st1|e] eqn:E1; [|discriminate].
  cbn [bind] in H.
  destruct layers as [|l2 layers].
  - cbn in H. injection H as <-.
    apply layer_body_inv in E1.
    destruct E1 as (b & pr & pre & _ & _ & _ & _ & _ & _ & Hp).
    rewrite Hp. cbn [length] in Hk.
    replace (Z.of_nat k =? Z.of_nat L - 1)%Z with true; [reflexivity|].
    symmetry. apply Z.eqb_eq. lia.
  - apply (IH (S k) st1 st'); [discriminate| cbn [length] in *; lia | exact H].
Qed.

Lemma layer_loop_memberships_nil (pen : bool) (L k : nat) (layers : list Linear)
      (st st' : loop_state) :
  layer_loop pen L k layers st = Ok st' ->
  polytope_memberships st = [] ->
  polytope_memberships st' = [] -> layers = [].
Proof.
  intros H H0 H1. apply layer_loop_inv in H.
  destruct H as (pres & ms & _ & Hms & _ & _ & Hlen & _).
  rewrite H0, H1 in Hms. cbn in Hms. subst ms.
  destruct layers; [reflexivity|discriminate].
Qed.

(** The flag has no effect on what [get_polytopes] returns. *)
Lemma get_polytopes_penultimate_noop (model : Net) (train_x : matrix) :
  get_polytopes model train_x true = get_polytopes model train_x false.
Proof.
  unfold get_polytopes, run_layers.
  set (layers := linear_layers model).
  pose proof (layer_loop_erase (length layers) layers 0
                (initial_state train_x) (initial_state train_x) eq_refl) as He.
  destruct (layer_loop true (length layers) 0 layers (initial_state train_x))
    as [s1|e1] eqn:E1;
    destruct (layer_loop false (length layers) 0 layers (initial_state train_x))
    as [s2|e2] eqn:E2;
    cbn [map_result bind] in *; try discriminate; [|congruence].
  injection He as Hm Ha Hl. rewrite Hm.
  destruct (concatenate_axis1 (polytope_memberships s2)) as [pat|e] eqn:Ec;
    [|reflexivity].
  cbn [bind]. f_equal. f_equal.
  destruct layers as [|l ls] eqn:El.
  - cbn in E2. injection E2 as <-. cbn in Ec. discriminate.
  - rewrite (layer_loop_captures_last (length (l :: ls)) (l :: ls) 0
               (initial_state train_x) s1); auto; [congruence|discriminate].
Qed.

End Penultimate.

(** C4. On the two-layer model and the batch [[1/4]], the last layer's
    pre-activation is 1/4, which is not above one half, so its mask is 0.
    With the penultimate flag set, [get_polytopes] returns the activations
    after that mask was applied, 0, as it does without the flag; the value
    before the final mask, 1/4, is not what it returns. *)
Theorem penultimate_returns_final_masked :
  exists st pre act,
    run_layers two_layer_model [[1 # 4]] true = Ok st /\
    last (preactivation_log st) [] = [[pre]] /\ pre == 1 # 4 /\
    last (polytope_memberships st) [] = [[0%Z]] /\
    get_polytopes two_layer_model [[1 # 4]] true = Ok ([[1%Z]], Some [[act]]) /\
    act == 0 /\ ~ act == pre /\
    get_polytopes two_layer_model [[1 # 4]] false
    = get_polytopes two_layer_model [[1 # 4]] true.
Proof.
  eexists. eexists. eexists.
  split; [vm_compute; reflexivity|].
  split; [vm_compute; reflexivity|].
  split; [reflexivity|].
  split; [reflexivity|].
  split; [vm_compute; reflexivity|].
  split; [reflexivity|].
  split; [intros H; vm_compute in H; discriminate|].
  reflexivity.
Qed.

(** ** Layers of the network model *)

Section NetModel.

Variable init_weight : nat -> nat -> nat -> matrix.
Variable init_bias : nat -> nat -> list Q.
Variable init_bn : nat -> BatchNorm1d.

Lemma linear_layers_app (m1 m2 : Net) :
  linear_layers (m1 ++ m2) = linear_layers m1 ++ linear_layers m2.
Proof.
  induction m1 as [|[l| |b] m1 IH]; cbn; rewrite ?IH; reflexivity.
Qed.

Lemma linear_layers_bn_slot (bn : bool) (b : BatchNorm1d) :
  linear_layers (if bn then [nn_BatchNorm1d b] else []) = [].
Proof. destruct bn; reflexivity. Qed.

Lemma linear_layers_hidden_block (h : nat) (with_bias bn : bool) (ll : nat) :
  linear_layers (hidden_block init_weight init_bias init_bn h with_bias bn ll)
  = linear_layers [new_Linear init_weight init_bias (S ll) h h with_bias].
Proof.
  unfold hidden_block.
  rewrite !linear_layers_app, linear_layers_bn_slot. reflexivity.
Qed.

Lemma linear_layers_hidden_blocks (h : nat) (with_bias bn : bool) (ls : list nat) :
  linear_layers
    (flat_map (hidden_block init_weight init_bias init_bn h with_bias bn) ls)
  = linear_layers
      (map (fun ll => new_Linear init_weight init_bias (S ll) h h with_bias) ls).
Proof.
  induction ls as [|ll ls IH]; [reflexivity|].
  cbn [flat_map map].
  rewrite linear_layers_app, linear_layers_hidden_block, IH. reflexivity.
Qed.

Lemma length_linear_layers_new (ls : list nat) (h : nat) (with_bias : bool) :
  length (linear_layers
            (map (fun ll => new_Linear init_weight init_bias (S ll) h h with_bias) ls))
  = length ls.
Proof.
  induction ls as [|ll ls IH]; cbn; [reflexivity|]. now rewrite IH.
Qed.

(** The affine layers of a network do not depend on [bn]. *)
Lemma linear_layers_Net_init_bn
      (in_dim out_dim h n : nat) (with_bias pen bn : bool) :
  linear_layers
    (Net_init init_weight init_bias init_bn in_dim out_dim h n with_bias pen bn)
  = linear_layers
      (Net_init init_weight init_bias init_bn in_dim out_dim h n with_bias pen false).
Proof.
  unfold Net_init.
  destruct pen;
    rewrite !linear_layers_app, !linear_layers_hidden_blocks,
      ?linear_layers_bn_slot; reflexivity.
Qed.

(** C5. [Net.__init__] creates one [Linear] before its loop, one in each
    of the [n_hidden] iterations and one after it: [n_hidden + 2] affine
    layers, and [n_hidden + 3] with the penultimate projection. The
    count stated for it, [n_hidden + 1] (and [n_hidden + 2]), is one short
    for every choice of the parameters. *)
Theorem Net_init_linear_count
        (in_dim out_dim hidden_size n_hidden : nat) (with_bias bn : bool) :
  length (linear_layers
            (Net_init init_weight init_bias init_bn
                      in_dim out_dim hidden_size n_hidden with_bias false bn))
  = (n_hidden + 2)%nat /\
  length (linear_layers
            (Net_init init_weight init_bias init_bn
                      in_dim out_dim hidden_size n_hidden with_bias true bn))
  = (n_hidden + 3)%nat.
Proof.
  unfold Net_init.
  split;
    rewrite !linear_layers_app, !linear_layers_hidden_blocks,
      ?linear_layers_bn_slot, !length_app, length_linear_layers_new,
      length_seq; cbn; lia.
Qed.

End NetModel.

(** The default network of the source, [Net(2, 1)] with [hidden_size=10]
    and [n_hidden=2], has four affine layers, not three. *)
Lemma Net_init_default_count :
  length (linear_layers (Net_init wide_weight wide_bias wide_bn 2 1 10 2 false false false))
  = 4%nat.
Proof. reflexivity. Qed.

(** ** Normalization layers and the analyzer *)

(** C10. Two models with the same affine layers, whatever normalization
    layers stand between them, get the same result from [get_polytopes] on
    every batch: the same identifiers, the same activations, or the same
    failure. *)
Theorem get_polytopes_ignores_batchnorm
        (model1 model2 : Net) (train_x : matrix) (penultimate : bool) :
  linear_layers model1 = linear_layers model2 ->
  get_polytopes model1 train_x penultimate
  = get_polytopes model2 train_x penultimate.
Proof.
  intros H. unfold get_polytopes, run_layers. rewrite H. reflexivity.
Qed.

(** A model with a normalization layer and the same model without it. *)
Lemma get_polytopes_ignores_batchnorm_witness :
  linear_layers two_layer_model_bn = linear_layers two_layer_model /\
  two_layer_model_bn <> two_layer_model /\
  get_polytopes two_layer_model_bn [[1]; [1 # 4]] false
  = get_polytopes two_layer_model [[1]; [1 # 4]] false.
Proof.
  split; [reflexivity|]. split; [discriminate|].
  apply (get_polytopes_ignores_batchnorm
           two_layer_model_bn two_layer_model [[1]; [1 # 4]] false).
  reflexivity.
Defined.

(** Networks built by [Net.__init__] from the same parameters, with and
    without normalization layers, are analysed alike. *)
Lemma get_polytopes_Net_init_bn
      (init_weight : nat -> nat -> nat -> matrix) (init_bias : nat -> nat -> list Q)
      (init_bn : nat -> BatchNorm1d)
      (in_dim out_dim h n : nat) (with_bias pen : bool)
      (train_x : matrix) (penultimate : bool) :
  get_polytopes
    (Net_init init_weight init_bias init_bn in_dim out_dim h n with_bias pen true)
    train_x penultimate
  = get_polytopes
      (Net_init init_weight init_bias init_bn in_dim out_dim h n with_bias pen false)
      train_x penultimate.
Proof.
  unfold get_polytopes, run_layers.
  now rewrite linear_layers_Net_init_bn.
Qed.

(** ** Collisions of region identifiers *)

Lemma pattern_ok_forallb (p : list Z) :
  forallb (fun b => (b =? 0)%Z || (b =? 1)%Z) p = true -> pattern_ok p.
Proof.
  intros H. apply Forall_forall. intros b Hb.
  rewrite forallb_forall in H. specialize (H b Hb).
  apply orb_true_iff in H. unfold is_bit.
  destruct H as [H|H]; apply Z.eqb_eq in H; auto.
Qed.

(** C2. The network [Net(1, 1, hidden_size=64, n_hidden=0)] with the
    parameters [wide_weight] has 65 units. On the inputs 1 and 1/4 the
    hidden units all fire and the output unit fires for the first input
    only, so the two activation patterns differ in their last bit; that
    bit's weight [2 ** 64] is 0 in 64-bit arithmetic, and both points get
    the identifier -1. *)
Theorem region_id_collision :
  exists st a b acts,
    run_layers wide_model [[1]; [1 # 4]] false = Ok st /\
    concatenate_axis1 (polytope_memberships st) = Ok [a; b] /\
    pattern_ok a /\ pattern_ok b /\
    length a = 65%nat /\ length b = 65%nat /\
    a <> b /\
    region_id a = region_id b /\
    get_polytopes wide_model [[1]; [1 # 4]] false = Ok ([[-1; -1]%Z], acts).
Proof.
  eexists. eexists. eexists. eexists.
  split; [vm_compute; reflexivity|].
  split; [vm_compute; reflexivity|].
  split; [apply pattern_ok_forallb; reflexivity|].
  split; [apply pattern_ok_forallb; reflexivity|].
  split; [reflexivity|].
  split; [reflexivity|].
  split; [intros H; apply (f_equal (fun l => nth 64 l 0%Z)) in H;
          vm_compute in H; discriminate|].
  split; vm_compute; reflexivity.
Qed.

(** ** Gini impurity *)

Section Gini.
Local Open Scope Q_scope.

Lemma Qsquare_nonneg (z : Q) : 0 <= z * z.
Proof. destruct (Qlt_le_dec z 0); nra. Qed.

Lemma gini_impurity_ok (P1 P2 : Q) :
  ~ P1 + P2 == 0 ->
  gini_impurity P1 P2 = Ok (2 * (P1 / (P1 + P2)) * (P2 / (P1 + P2))).
Proof.
  intros H. unfold gini_impurity.
  destruct (Qeq_bool (P1 + P2) 0) eqn:E; [|reflexivity].
  apply Qeq_bool_eq in E. contradiction.
Qed.

Lemma gini_impurity_zero_denom (P1 P2 : Q) :
  P1 + P2 == 0 -> gini_impurity P1 P2 = Raise ZeroDivisionError.
Proof.
  intros H. unfold gini_impurity. now rewrite (Qeq_eq_bool _ _ H).
Qed.

Lemma fractions_sum (P1 P2 : Q) :
  0 < P1 + P2 -> P1 / (P1 + P2) + P2 / (P1 + P2) == 1.
Proof. intros H. field. lra. Qed.

Lemma fraction_nonneg (P d : Q) : 0 < d -> 0 <= P -> 0 <= P / d.
Proof. intros Hd HP. apply Qle_shift_div_l; lra. Qed.

Lemma fraction_eq (P1 P2 d : Q) : 0 < d -> (P1 / d == P2 / d <-> P1 == P2).
Proof.
  intros Hd. split; intros H.
  - assert (E : forall P, P == (P / d) * d) by (intros P; field; lra).
    rewrite (E P1), (E P2), H. reflexivity.
  - now rewrite H.
Qed.

Lemma fraction_zero (P d : Q) : P == 0 -> P / d == 0.
Proof. intros H. rewrite H. unfold Qdiv. ring. Qed.

End Gini.

(** C8. For non-negative counts with a positive sum, [gini_impurity]
    returns [2 * (P1/(P1+P2)) * (P2/(P1+P2))]; the value lies between 0
    and 1/2, is 1/2 exactly when [P1 = P2], and is 0 when either count
    is 0. *)
Theorem gini_impurity_bounds (P1 P2 : Q) :
  0 <= P1 -> 0 <= P2 -> 0 < P1 + P2 ->
  exists g,
    gini_impurity P1 P2 = Ok g /\
    g = 2 * (P1 / (P1 + P2)) * (P2 / (P1 + P2)) /\
    0 <= g /\ g <= 1 # 2 /\
    (g == 1 # 2 <-> P1 == P2) /\
    (P1 == 0 \/ P2 == 0 -> g == 0).
Proof.
  intros H1 H2 Hd.
  exists (2 * (P1 / (P1 + P2)) * (P2 / (P1 + P2))).
  split; [apply gini_impurity_ok; lra|]. split; [reflexivity|].
  pose proof (fractions_sum P1 P2 Hd) as Hs.
  pose proof (fraction_nonneg P1 _ Hd H1) as Hx.
  pose proof (fraction_nonneg P2 _ Hd H2) as Hy.
  pose proof (fraction_eq P1 P2 _ Hd) as Heq.
  pose proof (fraction_zero P1 (P1 + P2)) as Hz1.
  pose proof (fraction_zero P2 (P1 + P2)) as Hz2.
  set (x := P1 / (P1 + P2)) in *. set (y := P2 / (P1 + P2)) in *.
  pose proof (Qsquare_nonneg (x - y)) as Hsq.
  split; [nra|]. split; [nra|]. split.
  - rewrite <- Heq. split; intros H.
    + assert (Hq : (x - y) * (x - y) == 0) by nra.
      apply Qmult_integral in Hq. destruct Hq; lra.
    + nra.
  - intros [H|H]; [rewrite (Hz1 H) | rewrite (Hz2 H)]; ring.
Qed.

(** Three positive predictions and one negative prediction. *)
Lemma gini_impurity_bounds_witness :
  0 <= 3 /\ 0 <= 1 /\ 0 < 3 + 1 /\
  exists g,
    gini_impurity 3 1 = Ok g /\
    g = 2 * (3 / (3 + 1)) * (1 / (3 + 1)) /\
    0 <= g /\ g <= 1 # 2 /\
    (g == 1 # 2 <-> 3 == 1) /\
    (3 == 0 \/ 1 == 0 -> g == 0).
Proof.
  split; [discriminate|]. split; [discriminate|]. split; [reflexivity|].
  apply (gini_impurity_bounds 3 1); [discriminate | discriminate | reflexivity].
Defined.

(** ** Regions met by the Gini helpers *)

Section Regions.
Local Open Scope Q_scope.

Lemma insert_unique_In (z x : Z) (l : list Z) :
  In x (insert_unique z l) -> x = z \/ In x l.
Proof.
  induction l as [|y l IH]; cbn [insert_unique].
  - intros [H|[]]; auto.
  - destruct (z <? y)%Z.
    + intros [H|H]; auto.
    + destruct (z =? y)%Z; [auto|].
      intros [H|H]; [right; left; exact H|].
      destruct (IH H); auto. right. right. assumption.
Qed.

(** Every value listed by [np.unique] occurs in the array. *)
Lemma np_unique_In (x : Z) (l : list Z) : In x (np_unique l) -> In x l.
Proof.
  induction l as [|z l IH]; cbn [np_unique fold_right]; [auto|].
  intros H. apply insert_unique_In in H.
  destruct H as [H|H]; [left; auto | right; auto].
Qed.

Lemma insert_unique_nonempty (z : Z) (l : list Z) : insert_unique z l <> [].
Proof.
  destruct l as [|y l]; cbn; [discriminate|].
  destruct (z <? y)%Z; [discriminate|].
  destruct (z =? y)%Z; discriminate.
Qed.

Lemma np_unique_nonempty (l : list Z) : l <> [] -> np_unique l <> [].
Proof.
  destruct l as [|z l]; [congruence|]. intros _.
  cbn [np_unique fold_right]. apply insert_unique_nonempty.
Qed.

(** A region listed by [np.unique] has at least one member point. *)
Lemma members_nonempty (l : Z) (memberships : list Z) :
  forall predicts : list Q,
    length memberships = length predicts ->
    In l memberships ->
    filter (fun '(m, _) => (m =? l)%Z) (combine memberships predicts) <> [].
Proof.
  induction memberships as [|m ms IH]; intros [|p ps] Hlen Hin;
    try discriminate; [destruct Hin|].
  cbn [combine filter].
  destruct (m =? l)%Z eqn:E; [discriminate|].
  apply IH; [cbn in Hlen; lia|].
  destruct Hin as [->|H]; [|exact H].
  rewrite Z.eqb_refl in E. discriminate.
Qed.

Lemma region_gini_ok (memberships : list Z) (predicts : list Q) (l : Z) :
  length memberships = length predicts ->
  In l (np_unique memberships) ->
  exists cur_l_idx,
    boolean_index memberships l predicts = Ok cur_l_idx /\
    (1 <= length cur_l_idx)%nat /\
    np_sum cur_l_idx
    + (inject_Z (Z.of_nat (length cur_l_idx)) - np_sum cur_l_idx)
    == inject_Z (Z.of_nat (length cur_l_idx)) /\
    exists g, region_gini memberships predicts l = Ok g.
Proof.
  intros Hlen Hin. apply np_unique_In in Hin.
  pose proof (members_nonempty l memberships predicts Hlen Hin) as Hne.
  unfold region_gini, boolean_index.
  rewrite Hlen, Nat.eqb_refl. cbn [bind].
  set (cur := map snd _).
  assert (Hc : (1 <= length cur)%nat).
  { subst cur. rewrite length_map.
    destruct (filter _ _); [congruence|cbn; lia]. }
  exists cur. split; [reflexivity|]. split; [exact Hc|].
  split; [ring|].
  eexists. apply gini_impurity_ok.
  assert (Hp : 0 < inject_Z (Z.of_nat (length cur))).
  { change 0 with (inject_Z 0). rewrite <- Zlt_Qlt. lia. }
  intros H. lra.
Qed.

Lemma mapM_ok {A B : Type} (f : A -> result B) (l : list A) :
  (forall a, In a l -> exists b, f a = Ok b) ->
  exists bs, mapM f l = Ok bs /\ length bs = length l.
Proof.
  induction l as [|a l IH]; intros H.
  - exists []. split; reflexivity.
  - destruct (H a (or_introl eq_refl)) as (b & Hb).
    destruct IH as (bs & Hbs & Hl); [intros; apply H; now right|].
    exists (b :: bs). cbn [mapM]. rewrite Hb. cbn [bind]. rewrite Hbs.
    cbn. split; [reflexivity|]. now rewrite Hl.
Qed.

Lemma gini_impurity_mean_ok (memberships : list Z) (predicts : list Q) :
  length memberships = length predicts -> memberships <> [] ->
  exists g, gini_impurity_mean memberships predicts = Ok g.
Proof.
  intros Hlen Hne. unfold gini_impurity_mean.
  destruct (mapM_ok (region_gini memberships predicts) (np_unique memberships))
    as (gs & Hgs & Hl).
  { intros l Hl. destruct (region_gini_ok memberships predicts l Hlen Hl)
      as (_ & _ & _ & _ & g & Hg). eauto. }
  rewrite Hgs. cbn [bind].
  destruct gs as [|g gs].
  - apply np_unique_nonempty in Hne.
    destruct (np_unique memberships); [congruence|discriminate].
  - eexists. reflexivity.
Qed.

Lemma gini_list_loop_ok (memberships : list Z) (predicts : list Q) (ls : list Z) :
  length memberships = length predicts ->
  (forall l, In l ls -> In l (np_unique memberships)) ->
  forall score, exists out,
    gini_list_loop memberships predicts ls score = Ok out.
Proof.
  intros Hlen. induction ls as [|l ls IH]; intros Hin score.
  - eexists. reflexivity.
  - destruct (region_gini_ok memberships predicts l Hlen (Hin l (or_introl eq_refl)))
      as (_ & _ & _ & _ & g & Hg).
    cbn [gini_list_loop]. rewrite Hg. cbn [bind].
    apply IH. intros l' Hl'. apply Hin. now right.
Qed.

Lemma gini_impurity_list_ok (memberships : list Z) (predicts : list Q) :
  length memberships = length predicts ->
  exists out, gini_impurity_list memberships predicts = Ok out.
Proof.
  intros Hlen. unfold gini_impurity_list.
  apply gini_list_loop_ok; auto.
Qed.

End Regions.

(** C7, as stated, fails: with no prediction at all the division of
    [gini_impurity] is reached and fails; no impurity 0 is returned. *)
Lemma gini_impurity_empty_region_fails :
  0 + 0 == 0 /\
  gini_impurity 0 0 = Raise ZeroDivisionError /\
  gini_impurity 0 0 <> Ok 0 /\
  ~ (forall P1 P2, P1 + P2 == 0 -> exists g, gini_impurity P1 P2 = Ok g /\ g == 0).
Proof.
  split; [reflexivity|]. split; [reflexivity|]. split; [discriminate|].
  intros H. destruct (H 0 0) as (g & Hg & _); [reflexivity|discriminate].
Qed.

(** C7, amended. [gini_impurity] does not guard its division: whenever
    [P1 + P2 = 0] it fails. The failure cannot be reached from
    [gini_impurity_mean]: each region it visits comes from [np.unique] and
    so has at least one member point, the two counts handed over add up to
    that number of points, and both the per-region impurity and the mean
    are computed. *)
Theorem gini_division_unguarded_unreachable :
  (forall P1 P2, P1 + P2 == 0 -> gini_impurity P1 P2 = Raise ZeroDivisionError) /\
  (forall (memberships : list Z) (predicts : list Q) (l : Z),
     length memberships = length predicts ->
     In l (np_unique memberships) ->
     exists cur_l_idx,
       boolean_index memberships l predicts = Ok cur_l_idx /\
       (1 <= length cur_l_idx)%nat /\
       np_sum cur_l_idx
       + (inject_Z (Z.of_nat (length cur_l_idx)) - np_sum cur_l_idx)
       == inject_Z (Z.of_nat (length cur_l_idx)) /\
       exists g, region_gini memberships predicts l = Ok g) /\
  (forall (memberships : list Z) (predicts : list Q),
     length memberships = length predicts -> memberships <> [] ->
     exists g, gini_impurity_mean memberships predicts = Ok g).
Proof.
  split; [exact gini_impurity_zero_denom|].
  split; [exact region_gini_ok | exact gini_impurity_mean_ok].
Qed.

(** Five points in three regions. *)
Lemma gini_division_unguarded_unreachable_witness :
  gini_impurity 1 (-1) = Raise ZeroDivisionError /\
  (exists g, region_gini [5; 3; 5; 3; 7]%Z [1; 0; 0; 0; 1] 5%Z = Ok g) /\
  (exists g, gini_impurity_mean [5; 3; 5; 3; 7]%Z [1; 0; 0; 0; 1] = Ok g).
Proof.
  destruct gini_division_unguarded_unreachable as (H1 & H2 & H3).
  split; [apply H1; reflexivity|]. split.
  - destruct (H2 [5; 3; 5; 3; 7]%Z [1; 0; 0; 0; 1] 5%Z) as (_ & _ & _ & _ & Hg);
      [reflexivity | right; left; reflexivity | exact Hg].
  - apply H3; [reflexivity | discriminate].
Defined.

(** ** Hellinger distance *)

Section Hellinger.
Local Open Scope R_scope.

Lemma sq_diff_row_nonneg (p q : list R) : 0 <= sq_diff_row p q.
Proof.
  unfold sq_diff_row.
  induction (combine p q) as [|[a b] l IH]; cbn [map Rsum fold_right].
  - lra.
  - fold (Rsum (map (fun '(a, b) => (sqrt a - sqrt b) ^ 2) l)).
    pose proof (pow2_ge_0 (sqrt a - sqrt b)). lra.
Qed.

(** The cross term of the expansion of the squared differences. *)
Lemma sq_diff_row_expand (p : list R) : forall q : list R,
  length p = length q ->
  Forall (fun v => 0 <= v) p -> Forall (fun v => 0 <= v) q ->
  exists c, 0 <= c /\ sq_diff_row p q = Rsum p + Rsum q - 2 * c /\
            (disjoint_support p q -> c = 0).
Proof.
  induction p as [|a p IH]; intros [|b q] Hlen Hp Hq; try discriminate.
  - exists 0. unfold sq_diff_row. cbn. repeat split; lra.
  - inversion Hp as [|? ? Ha Hp']; inversion Hq as [|? ? Hb Hq']; subst.
    destruct (IH q) as (c & Hc & He & Hd); auto.
    exists (sqrt a * sqrt b + c).
    pose proof (sqrt_pos a). pose proof (sqrt_pos b).
    split; [nra|]. split.
    + unfold sq_diff_row in *. cbn [combine map Rsum fold_right] in *.
      unfold Rsum in He. rewrite He.
      pose proof (sqrt_sqrt a Ha). pose proof (sqrt_sqrt b Hb). nra.
    + intros Hdis. inversion Hdis as [|? ? ? ? Hab Hdis']; subst.
      rewrite (Hd Hdis').
      destruct Hab as [-> | ->]; rewrite sqrt_0; ring.
Qed.

Lemma sqrt2_pos : 0 < sqrt 2.
Proof. apply sqrt_lt_R0. lra. Qed.

Lemma hellinger_row_eq (p q : list R) :
  sqrt (sq_diff_row p q) / sqrt 2 = hellinger_row p q.
Proof. reflexivity. Qed.

Lemma hellinger_row_range (p q : list R) :
  length p = length q -> prob_row p -> prob_row q ->
  0 <= hellinger_row p q <= 1 /\
  (disjoint_support p q -> hellinger_row p q = 1).
Proof.
  intros Hlen [Hp Sp] [Hq Sq].
  destruct (sq_diff_row_expand p q Hlen Hp Hq) as (c & Hc & He & Hd).
  rewrite <- hellinger_row_eq.
  pose proof sqrt2_pos as H2.
  pose proof (sq_diff_row_nonneg p q) as Hn.
  split; [split|].
  - apply Rmult_le_pos; [apply sqrt_pos|].
    left. now apply Rinv_0_lt_compat.
  - apply (Rmult_le_reg_r (sqrt 2)); [exact H2|].
    unfold Rdiv. rewrite Rmult_assoc, Rinv_l, Rmult_1_r, Rmult_1_l by lra.
    apply sqrt_le_1_alt. lra.
  - intros Hdis. rewrite He, Sp, Sq, (Hd Hdis).
    replace (1 + 1 - 2 * 0) with 2 by ring.
    field. lra.
Qed.

Lemma hellinger_row_refl (p : list R) : hellinger_row p p = 0.
Proof.
  unfold hellinger_row.
  assert (E : Rsum (map (fun '(a, b) => (sqrt a - sqrt b) ^ 2) (combine p p)) = 0).
  { induction p as [|a p IH]; cbn [combine map Rsum fold_right]; [reflexivity|].
    unfold Rsum in IH. rewrite IH. ring. }
  rewrite E, sqrt_0. unfold Rdiv. ring.
Qed.

Lemma Rsum_bounds (a b : R) (l : list R) :
  Forall (fun v => a <= v <= b) l ->
  a * INR (length l) <= Rsum l <= b * INR (length l).
Proof.
  induction 1 as [|v l Hv _ IH].
  - cbn. lra.
  - cbn [length Rsum fold_right]. fold (Rsum l). rewrite S_INR. nra.
Qed.

Lemma Rmean_bounds (a b : R) (l : list R) :
  l <> [] -> Forall (fun v => a <= v <= b) l ->
  exists d, Rmean l = Ok d /\ d = Rsum l / INR (length l) /\ a <= d <= b.
Proof.
  intros Hne Hl.
  pose proof (Rsum_bounds a b l Hl) as Hs.
  destruct l as [|v l]; [congruence|].
  eexists. split; [reflexivity|]. split; [reflexivity|].
  assert (Hn : 0 < INR (length (v :: l))) by (apply lt_0_INR; cbn; lia).
  set (n := INR (length (v :: l))) in *.
  split.
  - apply (Rmult_le_reg_r n); [exact Hn|].
    unfold Rdiv. rewrite Rmult_assoc, Rinv_l, Rmult_1_r by lra. lra.
  - apply (Rmult_le_reg_r n); [exact Hn|].
    unfold Rdiv. rewrite Rmult_assoc, Rinv_l, Rmult_1_r by lra. lra.
Qed.

Lemma Forall2_combine_Forall {A B : Type} (P : A -> B -> Prop) (l1 : list A) (l2 : list B) :
  Forall2 P l1 l2 -> Forall (fun '(x, y) => P x y) (combine l1 l2).
Proof. induction 1; cbn [combine]; constructor; auto. Qed.

End Hellinger.

Section HellingerMean.
Local Open Scope R_scope.

Lemma row_distances_length (p q : list (list R)) :
  same_shape p q -> length (row_distances p q) = length p.
Proof.
  intros H. unfold row_distances. rewrite length_map, length_combine.
  apply Forall2_length in H. lia.
Qed.

Lemma row_distances_Forall (P : R -> Prop) (p q : list (list R)) :
  Forall2 (fun pr qr => P (hellinger_row pr qr)) p q ->
  Forall P (row_distances p q).
Proof.
  unfold row_distances.
  induction 1; cbn [combine map]; constructor; auto.
Qed.

Lemma Forall2_rows (p q : list (list R)) :
  same_shape p q -> Forall prob_row p -> Forall prob_row q ->
  Forall2 (fun pr qr => length pr = length qr /\ prob_row pr /\ prob_row qr) p q.
Proof.
  induction 1 as [|pr qr p q Hl _ IH]; intros Hp Hq; constructor;
    inversion Hp; inversion Hq; subst; auto.
Qed.

End HellingerMean.

(** C9. For two arrays of one shape whose rows are discrete probability
    vectors, [hellinger_explicit] is the average over the rows of
    [sqrt(sum_i (sqrt p_i - sqrt q_i)^2) / sqrt 2]; the distance it returns
    lies in [0, 1], is 0 when the arrays are equal and is 1 when every
    pair of rows has disjoint supports; and it returns a distance as soon
    as the arrays have a row (the average of no row at all is numpy's
    [nan]). *)
Theorem hellinger_explicit_bounds (p q : list (list R)) :
  same_shape p q -> Forall prob_row p -> Forall prob_row q ->
  hellinger_explicit p q
  = Rmean (map (fun '(pr, qr) => hellinger_row pr qr) (combine p q)) /\
  (forall d : R,
     hellinger_explicit p q = Ok d ->
     d = (Rsum (map (fun '(pr, qr) => hellinger_row pr qr) (combine p q))
          / INR (length p))%R /\
     (0 <= d <= 1)%R /\
     (p = q -> d = 0%R) /\
     (Forall2 disjoint_support p q -> d = 1%R)) /\
  (p <> [] -> exists d : R, hellinger_explicit p q = Ok d).
Proof.
  intros Hsh Hp Hq.
  split; [reflexivity|].
  pose proof (Forall2_rows p q Hsh Hp Hq) as Hrows.
  pose proof (row_distances_length p q Hsh) as Hlen.
  assert (Hrange : Forall (fun v => 0 <= v <= 1)%R (row_distances p q)).
  { apply row_distances_Forall.
    eapply Forall2_impl; [|exact Hrows].
    intros pr qr (Hl & Hpr & Hqr). now apply hellinger_row_range. }
  assert (Hne' : p <> [] -> row_distances p q <> []).
  { intros Hne E. rewrite E in Hlen. destruct p; [congruence|discriminate]. }
  split.
  - intros d Hd.
    assert (Hne : row_distances p q <> []).
    { intros E. unfold hellinger_explicit in Hd. fold (row_distances p q) in Hd.
      rewrite E in Hd. discriminate. }
    destruct (Rmean_bounds 0 1 _ Hne Hrange) as (d0 & Hd0 & Hval & Hb).
    assert (Heq : d0 = d) by (unfold hellinger_explicit in Hd;
                              fold (row_distances p q) in Hd; congruence).
    rewrite Heq in Hd0, Hval, Hb. clear Heq d0. split.
    { rewrite Hval, Hlen. reflexivity. }
    split; [exact Hb|]. split.
    + intros ->.
      assert (Hz : Forall (fun v => 0 <= v <= 0)%R (row_distances q q)).
      { apply row_distances_Forall.
        clear. induction q as [|r q IH]; constructor; auto.
        rewrite hellinger_row_refl. lra. }
      destruct (Rmean_bounds 0 0 _ Hne Hz) as (d' & Hd' & _ & Hb').
      rewrite Hd0 in Hd'. injection Hd' as <-. lra.
    + intros Hdis.
      assert (Ho : Forall (fun v => 1 <= v <= 1)%R (row_distances p q)).
      { apply row_distances_Forall.
        clear - Hrows Hdis.
        induction Hrows as [|pr qr p q (Hl & Hpr & Hqr) _ IH];
          inversion Hdis; subst; constructor; auto.
        rewrite (proj2 (hellinger_row_range pr qr Hl Hpr Hqr)); auto. lra. }
      destruct (Rmean_bounds 1 1 _ Hne Ho) as (d' & Hd' & _ & Hb').
      rewrite Hd0 in Hd'. injection Hd' as <-. lra.
  - intros Hne.
    destruct (Rmean_bounds 0 1 _ (Hne' Hne) Hrange) as (d & Hd & _).
    exists d. exact Hd.
Qed.

(** Two one-row arrays with disjoint supports: the distance is 1. *)
Lemma hellinger_explicit_bounds_witness :
  exists d : R,
    hellinger_explicit [[1; 0]]%R [[0; 1]]%R = Ok d /\ (0 <= d <= 1)%R /\ d = 1%R.
Proof.
  destruct (hellinger_explicit_bounds [[1; 0]]%R [[0; 1]]%R) as (_ & Hall & Hex).
  - repeat constructor.
  - constructor; [|constructor]. split; [repeat constructor; lra | cbn; lra].
  - constructor; [|constructor]. split; [repeat constructor; lra | cbn; lra].
  - destruct Hex as (d & Hd); [discriminate|].
    exists d. split; [exact Hd|].
    destruct (Hall d Hd) as (_ & Hb & _ & Hone).
    split; [exact Hb|]. apply Hone.
    constructor; [|constructor].
    constructor; [right; reflexivity|].
    constructor; [left; reflexivity | constructor].
Defined.

(** ** Dataset generator *)

Section GeneratorFacts.

Variable rng : Type.
Variable multivariate_normal : rng -> vec2 -> R -> nat -> list vec2 * rng.
Hypothesis multivariate_normal_size :
  forall g mean s size, length (fst (multivariate_normal g mean s size)) = size.

Lemma draw_blobs_length (ms : list vec2) (s : R) (size : nat) : forall g : rng,
  length (fst (draw_blobs multivariate_normal g ms s size))
  = (length ms * size)%nat.
Proof.
  induction ms as [|mean ms IH]; intros g; [reflexivity|].
  cbn [draw_blobs length].
  pose proof (multivariate_normal_size g mean s size) as H1.
  destruct (multivariate_normal g mean s size) as [pts g1].
  specialize (IH g1).
  destruct (draw_blobs multivariate_normal g1 ms s size) as [rest g2].
  cbn [fst] in *. rewrite length_app, H1, IH. reflexivity.
Qed.

Lemma labels_length (size : nat) : length (labels size) = (4 * size)%nat.
Proof.
  unfold labels. cbn [means length seq flat_map].
  rewrite !length_app, !repeat_length. cbn. lia.
Qed.

Lemma generate_gaussian_parity_ok (g : rng) (n : Z) (s a : R) :
  (-4 < n)%Z ->
  exists X Y g',
    generate_gaussian_parity multivariate_normal g n s (Some a)
    = Ok (X, Y, g') /\
    Z.of_nat (length X) = (4 * Z.quot n 4)%Z /\
    length Y = length X.
Proof.
  intros Hn. unfold generate_gaussian_parity, quarter.
  assert (Hq : (0 <= Z.quot n 4)%Z).
  { destruct (Z_lt_le_dec n 0) as [Hneg|Hpos].
    - assert (Hc : n = (-3)%Z \/ n = (-2)%Z \/ n = (-1)%Z) by lia.
      destruct Hc as [->|[->| ->]]; cbn; lia.
    - apply Z.quot_pos; lia. }
  replace (Z.quot n 4 <? 0)%Z with false by (symmetry; apply Z.ltb_ge; lia).
  pose proof (draw_blobs_length means s (Z.to_nat (Z.quot n 4)) g) as Hb.
  destruct (draw_blobs multivariate_normal g means s (Z.to_nat (Z.quot n 4)))
    as [blob g'].
  cbn [fst] in Hb.
  exists (map (rotate a) blob), (labels (Z.to_nat (Z.quot n 4))), g'.
  split; [reflexivity|].
  rewrite length_map, labels_length, Hb. cbn [means length]. split; lia.
Qed.

End GeneratorFacts.

(** C6, as stated, fails: 5 is not a multiple of 4, and neither is 0 a
    positive one, yet the generator signals nothing; it returns 4 points
    for [n = 5] and an empty dataset for [n = 0]. *)
Lemma generator_accepts_invalid_n :
  (5 mod 4 <> 0)%Z /\
  (exists X Y,
     generate_gaussian_parity mean_sampler tt 5 1%R (Some 0%R) = Ok (X, Y, tt) /\
     length X = 4%nat /\ Y = [1; 1; 0; 0]%Z) /\
  generate_gaussian_parity mean_sampler tt 0 1%R (Some 0%R) = Ok ([], [], tt).
Proof.
  split; [discriminate|]. split; [|reflexivity].
  eexists. eexists. split; [reflexivity|]. split; reflexivity.
Qed.

(** C6, amended. The generator does not validate [n]. It fails only for
    [n <= -4], where numpy refuses the negative number of draws. For every
    other [n] and every angle it returns [4 * trunc(n / 4)] points and as
    many labels; that is exactly [n] points for every non-negative multiple
    of 4, and fewer than [n] otherwise. *)
Theorem generate_gaussian_parity_sizes
        (rng : Type)
        (multivariate_normal : rng -> vec2 -> R -> nat -> list vec2 * rng)
        (g : rng) (n : Z) (cov_scale angle : R) :
  (forall g mean s size, length (fst (multivariate_normal g mean s size)) = size) ->
  ((n <= -4)%Z ->
   forall angle_params,
     generate_gaussian_parity multivariate_normal g n cov_scale angle_params
     = Raise ValueError) /\
  ((-4 < n)%Z ->
   exists X Y g',
     generate_gaussian_parity multivariate_normal g n cov_scale (Some angle)
     = Ok (X, Y, g') /\
     Z.of_nat (length X) = (4 * Z.quot n 4)%Z /\
     length Y = length X /\
     ((0 <= n)%Z -> (n mod 4 = 0)%Z -> Z.of_nat (length X) = n) /\
     ((0 < n)%Z -> (n mod 4 <> 0)%Z -> (Z.of_nat (length X) < n)%Z)).
Proof.
  intros Hsize. split.
  - intros Hn angle_params. unfold generate_gaussian_parity, quarter.
    replace (Z.quot n 4 <? 0)%Z with true; [reflexivity|].
    symmetry. apply Z.ltb_lt.
    apply Z.opp_lt_mono. rewrite <- Z.quot_opp_l by lia.
    apply Z.quot_str_pos. lia.
  - intros Hn.
    destruct (generate_gaussian_parity_ok rng multivariate_normal Hsize
                g n cov_scale angle Hn) as (X & Y & g' & HX & Hlen & HY).
    exists X, Y, g'. repeat split; auto.
    + intros H0 Hm. rewrite Hlen, Z.quot_div_nonneg by lia.
      pose proof (Z.div_mod n 4). lia.
    + intros H0 Hm. rewrite Hlen, Z.quot_div_nonneg by lia.
      pose proof (Z.div_mod n 4). pose proof (Z.mod_pos_bound n 4). lia.
Qed.

(** Eight points asked of the degenerate sampler. *)
Lemma generate_gaussian_parity_sizes_witness :
  exists X Y g',
    generate_gaussian_parity mean_sampler tt 8 1%R (Some 0%R) = Ok (X, Y, g') /\
    Z.of_nat (length X) = 8%Z /\ length Y = length X.
Proof.
  destruct (generate_gaussian_parity_sizes unit mean_sampler tt 8 1%R 0%R)
    as (_ & H).
  - intros g mean s size. apply repeat_length.
  - destruct H as (X & Y & g' & HX & _ & HY & Hn & _); [reflexivity|].
    exists X, Y, g'. split; [exact HX|]. split; [|exact HY].
    apply Hn; [discriminate|reflexivity].
Defined.

(** ** Bayes posterior *)

Section Posterior.
Local Open Scope R_scope.

Lemma det2_pdf_cov : det2 pdf_cov = 1.
Proof. unfold det2, pdf_cov, mscale, eye2. cbn. ring. Qed.

(** With the identity as covariance the quadratic form is the squared
    distance; the source does not halve it. *)
Lemma quad_form_pdf (x mu : vec2) :
  quad_form (vsub x mu) pdf_inv_cov = sq_dist x mu.
Proof.
  unfold pdf_inv_cov, inv2. rewrite det2_pdf_cov.
  unfold quad_form, vsub, sq_dist, pdf_cov, mscale, eye2. cbn. field.
Qed.

Lemma pdf_p0_eq (x : vec2) :
  pdf_p0 x = (exp (- sq_dist x mu01) + exp (- sq_dist x mu02)) / (2 * PI).
Proof.
  unfold pdf_p0. rewrite !quad_form_pdf, det2_pdf_cov, sqrt_1.
  now rewrite Rmult_1_r.
Qed.

Lemma pdf_p1_eq (x : vec2) :
  pdf_p1 x = (exp (- sq_dist x mu11) + exp (- sq_dist x mu12)) / (2 * PI).
Proof.
  unfold pdf_p1. rewrite !quad_form_pdf, det2_pdf_cov, sqrt_1.
  now rewrite Rmult_1_r.
Qed.

Lemma class_density_1 (s : R) (x : vec2) :
  class_density s 1 x
  = gaussian_density s (-1, -1) x / 4 + gaussian_density s (1, 1) x / 4.
Proof. unfold class_density. cbn. ring. Qed.

Lemma class_density_0 (s : R) (x : vec2) :
  class_density s 0 x
  = gaussian_density s (1, -1) x / 4 + gaussian_density s (-1, 1) x / 4.
Proof. unfold class_density. cbn. ring. Qed.

(** What [pdf] computes: its first component is the posterior of the
    class that the generator labels 0, and for a mixture whose
    covariance is half the identity. *)
Lemma pdf_first_is_class0_half_cov (x : vec2) :
  nth 0 (pdf x) 0 = true_posterior (1 / 2) 0 x.
Proof.
  unfold pdf, true_posterior. cbn [nth].
  rewrite pdf_p0_eq, pdf_p1_eq, class_density_0, class_density_1.
  unfold gaussian_density, mu01, mu02, mu11, mu12.
  replace (2 * (1 / 2)) with 1 by field.
  replace (2 * PI * (1 / 2)) with PI by field.
  assert (E : forall mu, - sq_dist x mu / 1 = - sq_dist x mu)
    by (intros; field).
  rewrite !E.
  pose proof (exp_pos (- sq_dist x (-1, -1))) as H1.
  pose proof (exp_pos (- sq_dist x (1, 1))) as H2.
  pose proof (exp_pos (- sq_dist x (-1, 1))) as H3.
  pose proof (exp_pos (- sq_dist x (1, -1))) as H4.
  pose proof PI_RGT_0 as Hpi.
  set (e1 := exp (- sq_dist x (-1, -1))) in *.
  set (e2 := exp (- sq_dist x (1, 1))) in *.
  set (e3 := exp (- sq_dist x (-1, 1))) in *.
  set (e4 := exp (- sq_dist x (1, -1))) in *.
  field. repeat split; lra.
Qed.

Lemma exp_neg_lt_half (t : R) : t <= -1 -> exp t < 1 / 2.
Proof.
  intros Ht. rewrite <- (Ropp_involutive t), exp_Ropp.
  assert (H : 2 < exp (- t)) by (pose proof (exp_ineq1 (- t)); lra).
  pose proof (exp_pos (- t)) as Hp.
  apply (Rmult_lt_reg_r (exp (- t))); [exact Hp|].
  rewrite Rinv_l by lra. lra.
Qed.

Lemma ratio_lt_half (a b : R) : 0 < a -> a < b -> a / (b + a) < 1 / 2.
Proof.
  intros Ha Hab.
  apply (Rmult_lt_reg_r (b + a)); [lra|].
  unfold Rdiv. rewrite Rmult_assoc, Rinv_l by lra. lra.
Qed.

Lemma ratio_gt_half (a b : R) : 0 < a -> a < b -> 1 / 2 < b / (a + b).
Proof.
  intros Ha Hab.
  apply (Rmult_lt_reg_r (a + b)); [lra|].
  unfold Rdiv at 2. rewrite Rmult_assoc, Rinv_l by lra. lra.
Qed.

End Posterior.

(** C1. At the centre [(1, 1)], whose points the generator labels 1, the
    posterior of class 1 under the generating mixture is above one half,
    while the first component of [pdf] is below one half: [pdf] gives its
    first place to the class around [(-1, 1)] and [(1, -1)], which the
    generator labels 0. *)
Theorem pdf_first_component_at_centre :
  nth 1%nat means (0, 0)%R = (1, 1)%R /\
  component_label 1 = 1%Z /\
  (nth 0 (pdf (1, 1)) 0 < 1 / 2)%R /\
  (1 / 2 < true_posterior 1 1 (1, 1))%R /\
  nth 0 (pdf (1, 1)%R) 0%R <> true_posterior 1 1 (1, 1)%R.
Proof.
  split; [reflexivity|]. split; [reflexivity|].
  assert (H1 : (nth 0 (pdf (1, 1)) 0 < 1 / 2)%R).
  { unfold pdf. cbn [nth]. rewrite pdf_p0_eq, pdf_p1_eq.
    unfold mu01, mu02, mu11, mu12, sq_dist. cbn [fst snd].
    replace (- ((1 - -1) ^ 2 + (1 - -1) ^ 2))%R with (- 8)%R by ring.
    replace (- ((1 - 1) ^ 2 + (1 - 1) ^ 2))%R with (- 0)%R by ring.
    replace (- ((1 - -1) ^ 2 + (1 - 1) ^ 2))%R with (- 4)%R by ring.
    replace (- ((1 - 1) ^ 2 + (1 - -1) ^ 2))%R with (- 4)%R by ring.
    rewrite Ropp_0, exp_0.
    pose proof (exp_pos (- 8)) as E8.
    pose proof (exp_pos (- 4)) as E4.
    pose proof (exp_neg_lt_half (-4) ltac:(lra)) as L4.
    pose proof PI_RGT_0 as Hpi.
    apply ratio_lt_half.
    - apply Rdiv_lt_0_compat; lra.
    - unfold Rdiv. apply Rmult_lt_compat_r; [apply Rinv_0_lt_compat|]; lra. }
  assert (H2 : (1 / 2 < true_posterior 1 1 (1, 1))%R).
  { unfold true_posterior. rewrite class_density_0, class_density_1.
    unfold gaussian_density, sq_dist. cbn [fst snd].
    replace (- ((1 - -1) ^ 2 + (1 - -1) ^ 2) / (2 * 1))%R with (- 4)%R by field.
    replace (- ((1 - 1) ^ 2 + (1 - 1) ^ 2) / (2 * 1))%R with (- 0)%R by field.
    replace (- ((1 - 1) ^ 2 + (1 - -1) ^ 2) / (2 * 1))%R with (- 2)%R by field.
    replace (- ((1 - -1) ^ 2 + (1 - 1) ^ 2) / (2 * 1))%R with (- 2)%R by field.
    rewrite Ropp_0, exp_0.
    pose proof (exp_pos (- 4)) as E4.
    pose proof (exp_pos (- 2)) as E2.
    pose proof (exp_neg_lt_half (-2) ltac:(lra)) as L2.
    pose proof PI_RGT_0 as Hpi.
    assert (Hk : (0 < / (2 * PI * 1))%R) by (apply Rinv_0_lt_compat; lra).
    set (k := (/ (2 * PI * 1))%R) in *.
    apply ratio_gt_half; unfold Rdiv; fold k; nra. }
  split; [exact H1|]. split; [exact H2|]. lra.
Qed.

(** * Further properties of the code *)

(** ** The posterior returned by [pdf] *)

Section PdfShape.
Local Open Scope R_scope.




Lemma exp_opp_inv (t : R) : exp (- t) = / exp t.
Proof. apply exp_Ropp. Qed.





End PdfShape.



(** X3. [pdf] has the symmetries of the four centres: it is unchanged by
    the point reflection and by the exchange of the coordinates, and a
    reflection in either axis exchanges its two components. *)
Theorem pdf_symmetries (x y : R) :
  pdf (- x, - y)%R = pdf (x, y) /\
  pdf (y, x) = pdf (x, y) /\
  pdf (- x, y)%R = rev (pdf (x, y)) /\
  pdf (x, - y)%R = rev (pdf (x, y)).
Proof.
  assert (E : forall a b c d : R,
             (exp (- sq_dist (a, b) (c, d))
              = exp (- ((a - c) * (a - c) + (b - d) * (b - d))))%R).
  { intros. f_equal. unfold sq_dist. cbn [fst snd]. ring. }
  assert (P0 : forall a b, pdf_p0 (a, b)
               = ((exp (- ((a + 1) * (a + 1) + (b + 1) * (b + 1)))
                   + exp (- ((a - 1) * (a - 1) + (b - 1) * (b - 1)))) / (2 * PI))%R).
  { intros. rewrite pdf_p0_eq. unfold mu01, mu02. rewrite !E.
    do 2 f_equal; f_equal; f_equal; ring. }
  assert (P1 : forall a b, pdf_p1 (a, b)
               = ((exp (- ((a + 1) * (a + 1) + (b - 1) * (b - 1)))
                   + exp (- ((a - 1) * (a - 1) + (b + 1) * (b + 1)))) / (2 * PI))%R).
  { intros. rewrite pdf_p1_eq. unfold mu11, mu12. rewrite !E.
    do 2 f_equal; f_equal; f_equal; ring. }
  assert (C : forall u v u' v' : R, u = v' -> v = u' ->
              ((exp (- u) + exp (- v)) / (2 * PI)
               = (exp (- u') + exp (- v')) / (2 * PI))%R).
  { intros u v u' v' -> ->. f_equal. apply Rplus_comm. }
  assert (S : forall u v u' v' : R, u = u' -> v = v' ->
              ((exp (- u) + exp (- v)) / (2 * PI)
               = (exp (- u') + exp (- v')) / (2 * PI))%R).
  { intros u v u' v' -> ->. reflexivity. }
  assert (A00 : pdf_p0 (- x, - y)%R = pdf_p0 (x, y))
    by (rewrite !P0; apply C; ring).
  assert (A01 : pdf_p1 (- x, - y)%R = pdf_p1 (x, y))
    by (rewrite !P1; apply C; ring).
  assert (B00 : pdf_p0 (y, x) = pdf_p0 (x, y))
    by (rewrite !P0; apply S; ring).
  assert (B01 : pdf_p1 (y, x) = pdf_p1 (x, y))
    by (rewrite !P1; apply C; ring).
  assert (C00 : pdf_p0 (- x, y)%R = pdf_p1 (x, y))
    by (rewrite P0, P1; apply C; ring).
  assert (C01 : pdf_p1 (- x, y)%R = pdf_p0 (x, y))
    by (rewrite P0, P1; apply C; ring).
  assert (D00 : pdf_p0 (x, - y)%R = pdf_p1 (x, y))
    by (rewrite P0, P1; apply S; ring).
  assert (D01 : pdf_p1 (x, - y)%R = pdf_p0 (x, y))
    by (rewrite P0, P1; apply S; ring).
  unfold pdf. cbn [rev app].
  rewrite A00, A01, B00, B01, C00, C01, D00, D01.
  repeat split; try reflexivity;
    rewrite (Rplus_comm (pdf_p1 (x, y)) (pdf_p0 (x, y))); reflexivity.
Qed.

(** ** Labels and rotation of the generator *)

Section GeneratorMore.
Local Open Scope R_scope.

Lemma labels_eq (size : nat) :
  labels size = repeat 1%Z (2 * size) ++ repeat 0%Z (2 * size).
Proof.
  unfold labels. cbn [means length seq flat_map component_label Nat.ltb Nat.leb].
  rewrite app_nil_r, !app_assoc, <- !repeat_app, <- app_assoc, <- repeat_app.
  f_equal; f_equal; lia.
Qed.

Lemma count_occ_repeat_eq (z : Z) (k : nat) :
  count_occ Z.eq_dec (repeat z k) z = k.
Proof.
  induction k as [|k IH]; cbn; [reflexivity|].
  destruct (Z.eq_dec z z); [now rewrite IH | congruence].
Qed.

Lemma count_occ_repeat_neq (z w : Z) (k : nat) :
  z <> w -> count_occ Z.eq_dec (repeat z k) w = 0%nat.
Proof.
  intros H. induction k as [|k IH]; cbn; [reflexivity|].
  destruct (Z.eq_dec z w); [contradiction | exact IH].
Qed.

Lemma rotate_zero (b : vec2) : rotate 0 b = b.
Proof.
  destruct b as [u v]. unfold rotate. cbn [fst snd].
  replace (0 * PI / 180) with 0 by field.
  rewrite cos_0, sin_0. f_equal; ring.
Qed.

Lemma rotate_back (a : R) (b : vec2) : rotate (- a) (rotate a b) = b.
Proof.
  destruct b as [u v]. unfold rotate. cbn [fst snd].
  replace (- a * PI / 180) with (- (a * PI / 180)) by field.
  rewrite cos_neg, sin_neg.
  pose proof (sin2_cos2 (a * PI / 180)) as H. unfold Rsqr in H.
  set (c := cos (a * PI / 180)) in *. set (s := sin (a * PI / 180)) in *.
  f_equal.
  - transitivity (u * (s * s + c * c)); [ring | rewrite H; ring].
  - transitivity (v * (s * s + c * c)); [ring | rewrite H; ring].
Qed.

(** X6. The rotation that the generator applies keeps the squared
    distance between any two points, for every angle. *)
Lemma rotate_isometry (a : R) (u v : vec2) :
  sq_dist (rotate a u) (rotate a v) = sq_dist u v.
Proof.
  destruct u as [u1 u2], v as [v1 v2]. unfold rotate, sq_dist. cbn [fst snd].
  pose proof (sin2_cos2 (a * PI / 180)) as H. unfold Rsqr in H.
  set (c := cos (a * PI / 180)) in *. set (s := sin (a * PI / 180)) in *.
  transitivity (((u1 - v1) ^ 2 + (u2 - v2) ^ 2) * (s * s + c * c));
    [ring | rewrite H; ring].
Qed.

End GeneratorMore.

(** X4. Whenever the generator returns, its labels are [2 * int(n/4)]
    ones followed by as many zeros: the two classes have the same number
    of points, and label and point stay aligned (the points around the
    first two centres come first). *)
Theorem generator_labels_balanced
        (rng : Type)
        (multivariate_normal : rng -> vec2 -> R -> nat -> list vec2 * rng)
        (g g' : rng) (n : Z) (cov_scale : R) (angle_params : option R)
        (X : list vec2) (Y : list Z) :
  (forall g mean s size, length (fst (multivariate_normal g mean s size)) = size) ->
  generate_gaussian_parity multivariate_normal g n cov_scale angle_params
  = Ok (X, Y, g') ->
  Y = repeat 1%Z (2 * Z.to_nat (quarter n)) ++ repeat 0%Z (2 * Z.to_nat (quarter n)) /\
  count_occ Z.eq_dec Y 1%Z = count_occ Z.eq_dec Y 0%Z /\
  (count_occ Z.eq_dec Y 1%Z + count_occ Z.eq_dec Y 0%Z = length X)%nat.
Proof.
  intros Hsize H. unfold generate_gaussian_parity in H.
  destruct (quarter n <? 0)%Z; [discriminate|].
  pose proof (draw_blobs_length rng multivariate_normal Hsize means cov_scale
                (Z.to_nat (quarter n)) g) as Hb.
  destruct (draw_blobs multivariate_normal g means cov_scale (Z.to_nat (quarter n)))
    as [blob g1].
  destruct angle_params as [a|]; [|discriminate].
  injection H as <- <- <-.
  rewrite labels_eq. split; [reflexivity|].
  rewrite !count_occ_app, !count_occ_repeat_eq.
  rewrite (count_occ_repeat_neq 1 0), (count_occ_repeat_neq 0 1) by discriminate.
  rewrite length_map. cbn [fst] in Hb. rewrite Hb. cbn [means length].
  split; lia.
Qed.

(** Eight points from the degenerate sampler: four of each class. *)
Lemma generator_labels_balanced_witness :
  exists X Y,
    generate_gaussian_parity mean_sampler tt 8 1%R (Some 0%R) = Ok (X, Y, tt) /\
    count_occ Z.eq_dec Y 1%Z = 4%nat /\ count_occ Z.eq_dec Y 0%Z = 4%nat.
Proof.
  eexists. eexists. split; [reflexivity|].
  destruct (generator_labels_balanced unit mean_sampler tt tt 8 1%R (Some 0%R)
              _ _ (fun _ _ _ size => repeat_length _ size) eq_refl)
    as (HY & _ & _).
  rewrite HY. split; reflexivity.
Defined.

(** X5. The rotation of the generator can be undone: rotating the points
    returned for an angle back by that angle gives the points that the
    same draws give for the angle 0, which are the draws themselves; the
    labels do not depend on the angle. *)
Theorem generator_rotation_undone
        (rng : Type)
        (multivariate_normal : rng -> vec2 -> R -> nat -> list vec2 * rng)
        (g g' : rng) (n : Z) (cov_scale angle : R)
        (X : list vec2) (Y : list Z) :
  generate_gaussian_parity multivariate_normal g n cov_scale (Some angle)
  = Ok (X, Y, g') ->
  generate_gaussian_parity multivariate_normal g n cov_scale (Some 0%R)
  = Ok (map (rotate (- angle)) X, Y, g') /\
  map (rotate (- angle)) X
  = fst (draw_blobs multivariate_normal g means cov_scale (Z.to_nat (quarter n))).
Proof.
  unfold generate_gaussian_parity. intros H.
  destruct (quarter n <? 0)%Z; [discriminate|].
  destruct (draw_blobs multivariate_normal g means cov_scale (Z.to_nat (quarter n)))
    as [blob g1].
  injection H as <- <- <-. cbn [fst].
  assert (E : map (rotate (- angle)) (map (rotate angle) blob) = blob).
  { rewrite map_map. rewrite <- (map_id blob) at 2.
    apply map_ext. intros b. apply rotate_back. }
  rewrite E. split; [|reflexivity].
  do 3 f_equal. rewrite <- (map_id blob) at 2.
  apply map_ext. intros b. apply rotate_zero.
Qed.

(** The degenerate sampler, a quarter turn. *)
Lemma generator_rotation_undone_witness :
  exists X Y,
    generate_gaussian_parity mean_sampler tt 4 1%R (Some 90%R) = Ok (X, Y, tt) /\
    generate_gaussian_parity mean_sampler tt 4 1%R (Some 0%R)
    = Ok (map (rotate (- 90)) X, Y, tt).
Proof.
  eexists. eexists. split; [reflexivity|].
  apply (generator_rotation_undone unit mean_sampler tt tt 4 1%R 90%R).
  reflexivity.
Defined.

(** ** Shapes of the activation patterns *)

Section PatternShapes.

Lemma threshold_mask_length (t : Q) (pre : matrix) :
  length (threshold_mask t pre) = length pre.
Proof. unfold threshold_mask. apply length_map. Qed.

Lemma threshold_mask_rows (t : Q) (w : nat) (pre : matrix) :
  batch_ok w pre = true ->
  Forall (fun r => length r = w /\ pattern_ok r) (threshold_mask t pre).
Proof.
  rewrite batch_ok_iff. unfold threshold_mask.
  induction 1 as [|r pre Hr _ IH]; cbn [map]; constructor; auto.
  split; [now rewrite length_map|].
  apply Forall_forall. intros b Hb. apply in_map_iff in Hb.
  destruct Hb as (v & <- & _). unfold is_bit.
  destruct (Qgtb v t); auto.
Qed.

Lemma mul_mask_threshold_length (t : Q) (pre : matrix) :
  length (mul_mask pre (threshold_mask t pre)) = length pre.
Proof.
  unfold mul_mask. rewrite length_map, length_combine, threshold_mask_length. lia.
Qed.

(** What one iteration does to the shapes. *)
Lemma layer_body_shapes (pen : bool) (L k d : nat) (l : Linear) (ls : list Linear)
      (st st' : loop_state) :
  layers_ok d (l :: ls) = true ->
  batch_ok d (last_activations st) = true ->
  layer_body pen L k l st = Ok st' ->
  exists m,
    polytope_memberships st' = polytope_memberships st ++ [m] /\
    length m = length (last_activations st) /\
    Forall (fun r => length r = length (weight l) /\ pattern_ok r) m /\
    length (last_activations st') = length (last_activations st) /\
    batch_ok (length (weight l)) (last_activations st') = true.
Proof.
  intros Hl Hx H.
  destruct (layer_body_total pen L k d l ls st Hl Hx) as (st1 & E1 & Hx1).
  rewrite E1 in H. injection H as <-.
  apply layer_body_inv in E1.
  destruct E1 as (b & pr & pre & Hb & Hm & Ha & Hms & _ & Hact & _).
  cbn [layers_ok] in Hl. rewrite Hb in Hl.
  apply andb_true_iff in Hl. destruct Hl as [Hl _].
  apply andb_true_iff in Hl. destruct Hl as [Hw Hbl].
  apply Nat.eqb_eq in Hbl.
  rewrite (matmul_T_ok d _ _ Hx Hw) in Hm. injection Hm as <-.
  assert (Hpr : batch_ok (length b)
                  (map (fun r => map (dot r) (weight l)) (last_activations st)) = true).
  { apply batch_ok_iff, Forall_forall. intros r Hr.
    apply in_map_iff in Hr. destruct Hr as (r0 & <- & _).
    now rewrite length_map. }
  rewrite (add_bias_ok _ _ Hpr) in Ha. injection Ha as <-.
  set (pre := map (fun r => map (fun '(v, c) => v + c) (combine r b)) _) in *.
  assert (Hpre : batch_ok (length (weight l)) pre = true).
  { apply batch_ok_iff, Forall_forall. intros r Hr. subst pre.
    apply in_map_iff in Hr. destruct Hr as (r0 & <- & Hr0).
    rewrite length_map, length_combine.
    apply batch_ok_iff in Hpr. rewrite Forall_forall in Hpr.
    rewrite (Hpr r0 Hr0). lia. }
  assert (Hlen : length pre = length (last_activations st)).
  { subst pre. now rewrite !length_map. }
  eexists. split; [exact Hms|].
  rewrite threshold_mask_length, Hact, mul_mask_threshold_length.
  repeat split; auto.
  - now apply threshold_mask_rows.
  - now apply mul_mask_threshold_rows.
Qed.

Lemma layer_loop_shapes (pen : bool) (L : nat) (layers : list Linear) :
  forall (k d : nat) (st st' : loop_state),
    layers_ok d layers = true ->
    batch_ok d (last_activations st) = true ->
    layer_loop pen L k layers st = Ok st' ->
    exists ms,
      polytope_memberships st' = polytope_memberships st ++ ms /\
      Forall2 (fun l m =>
                 length m = length (last_activations st) /\
                 Forall (fun r => length r = length (weight l) /\ pattern_ok r) m)
              layers ms /\
      length (last_activations st') = length (last_activations st).
Proof.
  induction layers as [|l layers IH]; intros k d st st' Hl Hx H.
  - cbn in H. injection H as <-. exists [].
    rewrite app_nil_r. repeat split; auto.
  - cbn [layer_loop] in H.
    destruct (layer_body pen L k l st) as [st1|e] eqn:E1; [|discriminate].
    cbn [bind] in H.
    destruct (layer_body_shapes pen L k d l layers st st1 Hl Hx E1)
      as (m & Hm & Hlen & Hrows & Hla & Hx1).
    assert (Hl' : layers_ok (length (weight l)) layers = true).
    { cbn [layers_ok] in Hl. destruct (bias l); [|discriminate].
      apply andb_true_iff in Hl. tauto. }
    destruct (IH (S k) _ st1 st' Hl' Hx1 H) as (ms & Hms & Hall & Hla').
    exists (m :: ms). rewrite Hms, Hm, <- app_assoc. cbn [app].
    split; [reflexivity|]. split; [|congruence].
    constructor; [auto|].
    eapply Forall2_impl; [|exact Hall].
    intros l0 m0 (H1 & H2). split; [congruence | exact H2].
Qed.

(** Concatenation of masks that have the same number of rows. *)
Lemma concatenate_axis1_shapes (n : nat) (layers : list Linear) :
  forall ms : list int_matrix,
    layers <> [] ->
    Forall2 (fun l m =>
               length m = n /\
               Forall (fun r => length r = length (weight l) /\ pattern_ok r) m)
            layers ms ->
    exists patterns,
      concatenate_axis1 ms = Ok patterns /\
      length patterns = n /\
      Forall (fun p => length p = total_units layers /\ pattern_ok p) patterns.
Proof.
  induction layers as [|l layers IH]; intros ms Hne H; [congruence|].
  inversion H as [|? m ? ms' (Hlen & Hrows) Hrest]; subst.
  destruct layers as [|l2 layers].
  - inversion Hrest; subst. exists m. cbn [concatenate_axis1 total_units fold_right].
    split; [reflexivity|]. split; [reflexivity|].
    eapply Forall_impl; [|exact Hrows].
    intros r (H1 & H2). split; [lia | exact H2].
  - destruct (IH ms' ltac:(discriminate) Hrest) as (pats & Hc & Hn & Hp).
    destruct ms' as [|m2 ms'']; [inversion Hrest|].
    cbn [concatenate_axis1]. cbn [concatenate_axis1] in Hc. rewrite Hc.
    cbn [bind]. eexists. split; [reflexivity|].
    split; [rewrite length_map, length_combine; lia|].
    change (total_units (l :: l2 :: layers))
      with (length (weight l) + total_units (l2 :: layers))%nat.
    clear - Hrows Hp.
    revert pats Hp. induction Hrows as [|r m (Hr1 & Hr2) _ IHm]; intros pats Hp.
    + constructor.
    + destruct pats as [|p pats]; [constructor|].
      inversion Hp as [|? ? (Hp1 & Hp2) Hp']; subst.
      cbn [combine map]. constructor; [|now apply IHm].
      split; [rewrite length_app; lia|].
      apply Forall_app. split; assumption.
Qed.

End PatternShapes.

(** On fitting shapes the loop completes and its masks concatenate into
    one pattern per point. *)
Lemma run_layers_patterns (model : Net) (train_x : matrix) (penultimate : bool)
      (d : nat) :
  linear_layers model <> [] ->
  layers_ok d (linear_layers model) = true ->
  batch_ok d train_x = true ->
  exists st patterns,
    run_layers model train_x penultimate = Ok st /\
    concatenate_axis1 (polytope_memberships st) = Ok patterns /\
    length patterns = length train_x /\
    Forall (fun p => length p = total_units (linear_layers model) /\ pattern_ok p)
           patterns /\
    length (last_activations st) = length train_x.
Proof.
  intros Hne Hl Hx.
  destruct (layer_loop_total penultimate (length (linear_layers model))
              (linear_layers model) 0%nat d (initial_state train_x) Hl Hx)
    as (st & Hst).
  destruct (layer_loop_shapes penultimate _ _ 0%nat d (initial_state train_x)
              st Hl Hx Hst)
    as (ms & Hms & Hall & Hla).
  cbn [initial_state polytope_memberships last_activations app] in Hms, Hall, Hla.
  destruct (concatenate_axis1_shapes (length train_x) _ ms Hne Hall)
    as (patterns & Hc & Hn & Hp).
  exists st, patterns. unfold run_layers. rewrite Hms.
  repeat split; auto.
Qed.

(** What [get_polytopes] returns after a completed loop. *)
Lemma get_polytopes_of_run (model : Net) (train_x : matrix) (penultimate : bool)
      (st : loop_state) (patterns : int_matrix) :
  linear_layers model <> [] ->
  run_layers model train_x penultimate = Ok st ->
  concatenate_axis1 (polytope_memberships st) = Ok patterns ->
  get_polytopes model train_x penultimate
  = Ok ([map region_id patterns], Some (last_activations st)).
Proof.
  intros Hne Hst Hc. unfold get_polytopes. rewrite Hst. cbn [bind].
  rewrite Hc. cbn [bind].
  destruct penultimate; [|reflexivity].
  unfold run_layers in Hst.
  rewrite (layer_loop_captures_last (length (linear_layers model))
             (linear_layers model) 0 (initial_state train_x) st); auto.
Qed.

(** X7. On a model whose affine layers have biases and fitting shapes,
    and a batch of fitting width, [get_polytopes] returns one identifier
    per point; the activation pattern of every point has one bit per unit
    of the network ([total_units]), each 0 or 1, and the activations
    returned with the identifiers have one row per point as well. *)
Theorem get_polytopes_shapes (model : Net) (train_x : matrix) (penultimate : bool)
        (d : nat) :
  linear_layers model <> [] ->
  layers_ok d (linear_layers model) = true ->
  batch_ok d train_x = true ->
  exists st patterns acts,
    run_layers model train_x penultimate = Ok st /\
    concatenate_axis1 (polytope_memberships st) = Ok patterns /\
    length patterns = length train_x /\
    Forall (fun p => length p = total_units (linear_layers model) /\ pattern_ok p)
           patterns /\
    get_polytopes model train_x penultimate
    = Ok ([map region_id patterns], Some acts) /\
    length (map region_id patterns) = length train_x /\
    length acts = length train_x.
Proof.
  intros Hne Hl Hx.
  destruct (run_layers_patterns model train_x penultimate d Hne Hl Hx)
    as (st & patterns & Hst & Hc & Hn & Hp & Hla).
  exists st, patterns, (last_activations st).
  split; [exact Hst|]. split; [exact Hc|]. split; [exact Hn|]. split; [exact Hp|].
  split; [now apply get_polytopes_of_run|].
  split; [now rewrite length_map | exact Hla].
Qed.

(** The two-layer model on two points: two identifiers, two-bit patterns. *)
Lemma get_polytopes_shapes_witness :
  exists patterns acts,
    get_polytopes two_layer_model [[1]; [1 # 4]] false
    = Ok ([map region_id patterns], Some acts) /\
    length (map region_id patterns) = 2%nat /\
    Forall (fun p => length p = 2%nat /\ pattern_ok p) patterns.
Proof.
  destruct (get_polytopes_shapes two_layer_model [[1]; [1 # 4]] false 1)
    as (st & patterns & acts & _ & _ & _ & Hp & Hg & Hn & _);
    [discriminate | reflexivity | reflexivity |].
  exists patterns, acts. split; [exact Hg|]. split; [exact Hn | exact Hp].
Defined.

(** ** Networks built by [Net.__init__] under the analyzer *)

Section NetShapes.

Variable init_weight : nat -> nat -> nat -> matrix.
Variable init_bias : nat -> nat -> list Q.
Variable init_bn : nat -> BatchNorm1d.

(** The affine layers of a network, in order. *)
Lemma linear_layers_Net_init
      (in_dim out_dim h n : nat) (with_bias pen bn : bool) :
  linear_layers
    (Net_init init_weight init_bias init_bn in_dim out_dim h n with_bias pen bn)
  = fresh_Linear init_weight init_bias 0 in_dim h with_bias
      :: map (fun ll => fresh_Linear init_weight init_bias (S ll) h h with_bias) (seq 0 n)
      ++ (if pen then [fresh_Linear init_weight init_bias (S n) h 2 with_bias] else [])
      ++ [fresh_Linear init_weight init_bias (if pen then S (S n) else S n) (if pen then 2%nat else h)
              out_dim with_bias].
Proof.
  rewrite linear_layers_Net_init_bn. unfold Net_init.
  assert (E : forall ls,
             linear_layers
               (flat_map (hidden_block init_weight init_bias init_bn h with_bias false) ls)
             = map (fun ll => fresh_Linear init_weight init_bias (S ll) h h with_bias) ls).
  { induction ls as [|ll ls IH]; [reflexivity|].
    cbn [flat_map map]. rewrite linear_layers_app, IH. reflexivity. }
  destruct pen; rewrite !linear_layers_app, E; cbn [linear_layers app new_Linear];
    rewrite <- ?app_assoc; reflexivity.
Qed.

Hypothesis shapes : init_shapes_ok init_weight init_bias.

Lemma new_ok (k inp out : nat) (rest : list Linear) :
  layers_ok out rest = true ->
  layers_ok inp (fresh_Linear init_weight init_bias k inp out true :: rest) = true.
Proof.
  destruct shapes as (Hrows & Hcols & Hb). intros Hrest.
  cbn [layers_ok fresh_Linear bias weight].
  rewrite Hrows, Hb, Nat.eqb_refl, Hrest, !andb_true_r.
  apply forallb_forall. intros w Hw.
  specialize (Hcols k inp out). rewrite Forall_forall in Hcols.
  apply Nat.eqb_eq. auto.
Qed.

Lemma hidden_chain_ok (h : nat) (ls : list nat) (rest : list Linear) :
  layers_ok h rest = true ->
  layers_ok h (map (fun ll => fresh_Linear init_weight init_bias (S ll) h h true) ls ++ rest) = true.
Proof.
  intros Hrest. induction ls as [|ll ls IH]; [exact Hrest|].
  cbn [map app]. now apply new_ok.
Qed.

Lemma Net_init_layers_ok (in_dim out_dim h n : nat) (pen bn : bool) :
  layers_ok in_dim
    (linear_layers
       (Net_init init_weight init_bias init_bn in_dim out_dim h n true pen bn))
  = true.
Proof.
  rewrite linear_layers_Net_init.
  apply new_ok, hidden_chain_ok.
  destruct pen; cbn [app]; repeat apply new_ok; reflexivity.
Qed.

Lemma total_units_app (a b : list Linear) :
  total_units (a ++ b) = (total_units a + total_units b)%nat.
Proof.
  induction a as [|l a IH]; [reflexivity|].
  cbn [app total_units fold_right]. fold (total_units (a ++ b)).
  fold (total_units a). lia.
Qed.

Lemma Net_init_total_units (in_dim out_dim h n : nat) (with_bias pen bn : bool) :
  total_units
    (linear_layers
       (Net_init init_weight init_bias init_bn in_dim out_dim h n with_bias pen bn))
  = ((n + 1) * h + (if pen then 2 else 0) + out_dim)%nat.
Proof.
  destruct shapes as (Hrows & _ & _).
  rewrite linear_layers_Net_init.
  change (total_units (?l :: ?r)) with (length (weight l) + total_units r)%nat.
  rewrite !total_units_app.
  assert (E : forall ls, total_units (map (fun ll => fresh_Linear init_weight init_bias (S ll) h h with_bias) ls)
                         = (length ls * h)%nat).
  { induction ls as [|ll ls IH]; [reflexivity|].
    cbn [map]. change (total_units (?l :: ?r))
      with (length (weight l) + total_units r)%nat.
    rewrite IH. cbn [fresh_Linear weight]. rewrite Hrows. cbn [length]. lia. }
  rewrite E, length_seq.
  destruct pen; cbn [total_units fold_right fresh_Linear weight]; rewrite !Hrows; lia.
Qed.

End NetShapes.

(** X8. Every network that [get_model] returns can be analysed: for
    parameters of the shapes of [nn.Linear] and a batch of [in_dim]
    columns, [get_polytopes] returns one identifier per point, and each
    pattern has [(n_hidden + 1) * hidden_size + out_dim] bits (two more
    with the penultimate projection). *)
Theorem get_model_analyzable
        (init_weight : nat -> nat -> nat -> matrix)
        (init_bias : nat -> nat -> list Q) (init_bn : nat -> BatchNorm1d)
        (cuda : Net -> result Net)
        (hidden_size n_hidden in_dim out_dim : nat) (pen use_cuda bn : bool)
        (model : Net) (train_x : matrix) (penultimate : bool) :
  init_shapes_ok init_weight init_bias ->
  (forall m m', cuda m = Ok m' -> m' = m) ->
  get_model init_weight init_bias init_bn cuda
            hidden_size n_hidden in_dim out_dim pen use_cuda bn = Ok model ->
  batch_ok in_dim train_x = true ->
  exists patterns acts,
    get_polytopes model train_x penultimate
    = Ok ([map region_id patterns], Some acts) /\
    length patterns = length train_x /\
    Forall (fun p =>
              length p = ((n_hidden + 1) * hidden_size
                          + (if pen then 2 else 0) + out_dim)%nat
              /\ pattern_ok p) patterns.
Proof.
  intros Hshapes Hcuda Hmodel Hx.
  assert (E : model = Net_init init_weight init_bias init_bn in_dim out_dim
                               hidden_size n_hidden true pen bn).
  { unfold get_model in Hmodel. destruct use_cuda.
    - now apply Hcuda.
    - now injection Hmodel as <-. }
  subst model.
  assert (Hne : linear_layers
                  (Net_init init_weight init_bias init_bn in_dim out_dim
                            hidden_size n_hidden true pen bn) <> []).
  { rewrite linear_layers_Net_init. discriminate. }
  destruct (run_layers_patterns
              (Net_init init_weight init_bias init_bn in_dim out_dim
                        hidden_size n_hidden true pen bn)
              train_x penultimate in_dim Hne)
    as (st & patterns & Hst & Hc & Hn & Hp & _); auto.
  - now apply Net_init_layers_ok.
  - exists patterns, (last_activations st).
    split; [now apply get_polytopes_of_run|]. split; [exact Hn|].
    rewrite (Net_init_total_units _ _ init_bn Hshapes) in Hp. exact Hp.
Qed.

(** The smallest network of the depth sweep, [get_model(n_hidden=1,
    hidden_size=1)], without a device, on two points. *)
Lemma get_model_analyzable_witness :
  exists patterns acts,
    get_polytopes
      (Net_init ones_weight zeros_bias wide_bn 2 1 1 1 true false false)
      [[1; 1]; [-1; 0]] false
    = Ok ([map region_id patterns], Some acts) /\
    length patterns = 2%nat /\
    Forall (fun p => length p = 3%nat /\ pattern_ok p) patterns.
Proof.
  apply (get_model_analyzable ones_weight zeros_bias wide_bn (fun m => Ok m)
           1 1 2 1 false false false).
  - repeat split.
    + intros. apply repeat_length.
    + intros k inp out. apply Forall_forall. intros r Hr.
      apply repeat_spec in Hr. subst r. apply repeat_length.
    + intros. apply repeat_length.
  - intros m m' H. now injection H as <-.
  - reflexivity.
  - reflexivity.
Defined.

(** X9. A network built without biases (the default of [Net]) cannot be
    analysed: whatever the batch, [get_polytopes] fails on the missing
    bias of its first layer. *)
Theorem get_polytopes_without_bias
        (init_weight : nat -> nat -> nat -> matrix)
        (init_bias : nat -> nat -> list Q) (init_bn : nat -> BatchNorm1d)
        (in_dim out_dim hidden_size n_hidden : nat) (pen bn : bool)
        (train_x : matrix) (penultimate : bool) :
  get_polytopes
    (Net_init init_weight init_bias init_bn in_dim out_dim hidden_size n_hidden
              false pen bn)
    train_x penultimate
  = Raise AttributeError.
Proof.
  unfold get_polytopes, run_layers.
  rewrite linear_layers_Net_init. reflexivity.
Qed.

(** ** Region identifiers and the 64-bit range *)

Section RegionIdRange.
Import Int64 Int64Facts.
Local Open Scope Z_scope.

Lemma wrap_small (z : Z) : - half_modulus <= z < half_modulus -> wrap z = z.
Proof.
  intros H. unfold wrap. rewrite Z.mod_small; [lia|].
  change modulus with (2 * half_modulus). lia.
Qed.

Lemma region_id_range (p : list Z) : - half_modulus <= region_id p < half_modulus.
Proof.
  unfold region_id, pow2_arange, arange.
  destruct p as [|b p]; cbn [length seq map tensordot_row].
  - unfold half_modulus. lia.
  - apply wrap_range.
Qed.

(** The identifier is the binary value of the pattern, reduced to int64. *)
Lemma region_id_wrap (p : list Z) : region_id p = wrap (binary_value p).
Proof.
  rewrite <- (wrap_small (region_id p)) by apply region_id_range.
  apply wrap_inj_mod, region_id_mod.
Qed.

Lemma binary_value_app (a b : list Z) :
  binary_value (a ++ b) = binary_value a + 2 ^ Z.of_nat (length a) * binary_value b.
Proof.
  induction a as [|x a IH]; cbn [app binary_value length].
  - change (Z.of_nat 0) with 0. rewrite Z.pow_0_r. lia.
  - rewrite IH, Nat2Z.inj_succ, Z.pow_succ_r by lia. ring.
Qed.

Lemma region_id_small (p : list Z) :
  pattern_ok p -> (length p <= 63)%nat -> region_id p = binary_value p.
Proof.
  intros Hp Hlen.
  pose proof (binary_value_range p Hp) as Hr.
  assert (Hpow : 2 ^ Z.of_nat (length p) <= half_modulus).
  { unfold half_modulus. apply Z.pow_le_mono_r; lia. }
  rewrite region_id_wrap, wrap_small; [reflexivity|].
  unfold half_modulus in *. lia.
Qed.

(** X10. For a pattern of at most 63 bits the identifier is exactly the
    number that the pattern spells in binary, bit [i] counting [2^i]; it
    lies between 0 and [2^length]. *)
Theorem region_id_exact (p : list Z) :
  pattern_ok p -> (length p <= 63)%nat ->
  region_id p = binary_value p /\ 0 <= region_id p < 2 ^ Z.of_nat (length p).
Proof.
  intros Hp Hlen.
  rewrite (region_id_small p Hp Hlen).
  split; [reflexivity | now apply binary_value_range].
Qed.

(** X12. Only the first 64 bits of a pattern reach its identifier: what
    follows them is multiplied by powers of two that are 0 in int64. *)
Theorem region_id_first_64 (a b : list Z) :
  length a = 64%nat -> region_id (a ++ b) = region_id a.
Proof.
  intros Hlen. rewrite !region_id_wrap. apply wrap_inj_mod.
  rewrite binary_value_app, Hlen.
  change (2 ^ Z.of_nat 64) with modulus.
  replace (binary_value a + modulus * binary_value b)
    with (binary_value a + binary_value b * modulus) by ring.
  apply Z_mod_plus_full.
Qed.

End RegionIdRange.

(** A three-bit pattern: the identifier is 5. *)
Lemma region_id_exact_witness :
  region_id [1; 0; 1]%Z = 5%Z /\ (0 <= region_id [1; 0; 1] < 8)%Z.
Proof.
  destruct (region_id_exact [1; 0; 1]%Z) as (H1 & H2).
  - apply pattern_ok_forallb. reflexivity.
  - cbn. lia.
  - split; [rewrite H1; reflexivity | exact H2].
Defined.

(** X11. Two patterns of the same length, of at most 64 bits, have the
    same identifier exactly when they are the same pattern. *)
Theorem region_id_unique_upto_64 (a b : list Z) :
  pattern_ok a -> pattern_ok b -> length a = length b -> (length a <= 64)%nat ->
  (region_id a = region_id b <-> a = b).
Proof.
  intros Ha Hb Hlen H64. split.
  - now apply region_id_inj_upto_64.
  - intros ->. reflexivity.
Qed.

(** Two three-bit patterns that differ in their first bit. *)
Lemma region_id_unique_upto_64_witness :
  region_id [1; 0; 1]%Z <> region_id [0; 0; 1]%Z.
Proof.
  intros H.
  apply (region_id_unique_upto_64 [1; 0; 1]%Z [0; 0; 1]%Z) in H.
  - discriminate.
  - apply pattern_ok_forallb. reflexivity.
  - apply pattern_ok_forallb. reflexivity.
  - reflexivity.
  - cbn. lia.
Defined.

(** Sixty-four zeros followed by a one: the identifier of the zeros. *)
Lemma region_id_first_64_witness :
  region_id (repeat 0%Z 64 ++ [1%Z]) = region_id (repeat 0%Z 64).
Proof. apply (region_id_first_64 (repeat 0%Z 64) [1%Z]). reflexivity. Defined.

(** ** The analyzer works point by point *)

Section BatchApp.

Lemma combine_app_eq {A B : Type} (a1 a2 : list A) (b1 b2 : list B) :
  length a1 = length b1 ->
  combine (a1 ++ a2) (b1 ++ b2) = combine a1 b1 ++ combine a2 b2.
Proof.
  revert b1. induction a1 as [|x a1 IH]; intros [|y b1] H; try discriminate.
  - reflexivity.
  - cbn. f_equal. apply IH. cbn in H. lia.
Qed.

Lemma matmul_T_length (a w r : matrix) :
  matmul_T a w = Ok r -> length r = length a.
Proof.
  unfold matmul_T. destruct (forallb _ a); [|discriminate].
  intros H. injection H as <-. apply length_map.
Qed.

Lemma add_bias_length (m : matrix) (b : list Q) (r : matrix) :
  add_bias m b = Ok r -> length r = length m.
Proof.
  unfold add_bias. destruct (forallb _ m); [|discriminate].
  intros H. injection H as <-. apply length_map.
Qed.

Lemma matmul_T_app (a1 a2 w r1 r2 : matrix) :
  matmul_T a1 w = Ok r1 -> matmul_T a2 w = Ok r2 ->
  matmul_T (a1 ++ a2) w = Ok (r1 ++ r2).
Proof.
  unfold matmul_T. rewrite forallb_app.
  destruct (forallb _ a1); [|discriminate].
  destruct (forallb _ a2); [|discriminate].
  intros H1 H2. injection H1 as <-. injection H2 as <-.
  cbn [andb]. now rewrite map_app.
Qed.

Lemma add_bias_app (m1 m2 : matrix) (b : list Q) (r1 r2 : matrix) :
  add_bias m1 b = Ok r1 -> add_bias m2 b = Ok r2 ->
  add_bias (m1 ++ m2) b = Ok (r1 ++ r2).
Proof.
  unfold add_bias. rewrite forallb_app.
  destruct (forallb _ m1); [|discriminate].
  destruct (forallb _ m2); [|discriminate].
  intros H1 H2. injection H1 as <-. injection H2 as <-.
  cbn [andb]. now rewrite map_app.
Qed.

Lemma threshold_mask_app (t : Q) (p1 p2 : matrix) :
  threshold_mask t (p1 ++ p2) = threshold_mask t p1 ++ threshold_mask t p2.
Proof. unfold threshold_mask. apply map_app. Qed.

Lemma mul_mask_app (p1 p2 : matrix) (m1 m2 : int_matrix) :
  length p1 = length m1 ->
  mul_mask (p1 ++ p2) (m1 ++ m2) = mul_mask p1 m1 ++ mul_mask p2 m2.
Proof.
  intros H. unfold mul_mask. now rewrite combine_app_eq, map_app.
Qed.

Lemma layer_body_app (L k : nat) (l : Linear) (s1 s2 s s1' s2' : loop_state) :
  layer_body false L k l s1 = Ok s1' ->
  layer_body false L k l s2 = Ok s2' ->
  last_activations s = last_activations s1 ++ last_activations s2 ->
  exists s' m1 m2,
    layer_body false L k l s = Ok s' /\
    last_activations s' = last_activations s1' ++ last_activations s2' /\
    polytope_memberships s1' = polytope_memberships s1 ++ [m1] /\
    polytope_memberships s2' = polytope_memberships s2 ++ [m2] /\
    polytope_memberships s' = polytope_memberships s ++ [m1 ++ m2] /\
    length m1 = length (last_activations s1) /\
    length m2 = length (last_activations s2) /\
    length (last_activations s1') = length (last_activations s1) /\
    length (last_activations s2') = length (last_activations s2).
Proof.
  intros H1 H2 Hla.
  apply layer_body_inv in H1, H2.
  destruct H1 as (b & pr1 & pre1 & Hb & Hm1 & Ha1 & Hms1 & _ & Hact1 & _).
  destruct H2 as (b' & pr2 & pre2 & Hb' & Hm2 & Ha2 & Hms2 & _ & Hact2 & _).
  rewrite Hb in Hb'. injection Hb' as <-.
  cbv zeta in Hms1, Hms2, Hact1, Hact2.
  set (t := if (Z.of_nat k =? Z.of_nat L - 1)%Z then 1 # 2 else 0) in *.
  pose proof (matmul_T_app _ _ _ _ _ Hm1 Hm2) as Hm.
  pose proof (add_bias_app _ _ _ _ _ Ha1 Ha2) as Ha.
  pose proof (matmul_T_length _ _ _ Hm1) as L1.
  pose proof (matmul_T_length _ _ _ Hm2) as L2.
  pose proof (add_bias_length _ _ _ Ha1) as L3.
  pose proof (add_bias_length _ _ _ Ha2) as L4.
  eexists. exists (threshold_mask t pre1), (threshold_mask t pre2).
  split.
  { unfold layer_body. rewrite Hb, Hla, Hm. cbn [bind]. rewrite Ha. cbn [bind].
    reflexivity. }
  cbn [last_activations polytope_memberships andb].
  fold t. rewrite !threshold_mask_length.
  assert (Et : (if (Z.of_nat k =? Z.of_nat L - 1)%Z
                then threshold_mask (1 # 2) (pre1 ++ pre2)
                else threshold_mask 0 (pre1 ++ pre2))
               = threshold_mask t pre1 ++ threshold_mask t pre2).
  { subst t. destruct (Z.of_nat k =? Z.of_nat L - 1)%Z; apply threshold_mask_app. }
  rewrite Et, mul_mask_app by (now rewrite threshold_mask_length).
  rewrite Hact1, Hact2, !mul_mask_threshold_length.
  repeat split; auto; congruence.
Qed.

Lemma layer_loop_app (L : nat) (layers : list Linear) :
  forall (k : nat) (s1 s2 s s1' s2' : loop_state),
    layer_loop false L k layers s1 = Ok s1' ->
    layer_loop false L k layers s2 = Ok s2' ->
    last_activations s = last_activations s1 ++ last_activations s2 ->
    exists s' ms1 ms2,
      layer_loop false L k layers s = Ok s' /\
      last_activations s' = last_activations s1' ++ last_activations s2' /\
      polytope_memberships s1' = polytope_memberships s1 ++ ms1 /\
      polytope_memberships s2' = polytope_memberships s2 ++ ms2 /\
      polytope_memberships s' = polytope_memberships s ++ zip_app ms1 ms2 /\
      length ms1 = length layers /\ length ms2 = length layers /\
      Forall (fun m => length m = length (last_activations s1)) ms1 /\
      Forall (fun m => length m = length (last_activations s2)) ms2.
Proof.
  induction layers as [|l layers IH]; intros k s1 s2 s s1' s2' H1 H2 Hla.
  - cbn in H1, H2. injection H1 as <-. injection H2 as <-.
    exists s, [], []. cbn [layer_loop zip_app combine map].
    rewrite !app_nil_r. repeat split; auto.
  - cbn [layer_loop] in H1, H2.
    destruct (layer_body false L k l s1) as [t1|e] eqn:E1; [|discriminate].
    destruct (layer_body false L k l s2) as [t2|e] eqn:E2; [|discriminate].
    cbn [bind] in H1, H2.
    destruct (layer_body_app L k l s1 s2 s t1 t2 E1 E2 Hla)
      as (t & m1 & m2 & Et & Hla' & Hp1 & Hp2 & Hp & Hl1 & Hl2 & Hr1 & Hr2).
    destruct (IH (S k) t1 t2 t s1' s2' H1 H2 Hla')
      as (s' & ms1 & ms2 & Hs' & Hla'' & Hq1 & Hq2 & Hq & Hn1 & Hn2 & Hf1 & Hf2).
    exists s', (m1 :: ms1), (m2 :: ms2).
    cbn [layer_loop]. rewrite Et. cbn [bind].
    split; [exact Hs'|]. split; [exact Hla''|].
    rewrite Hq1, Hq2, Hq, Hp1, Hp2, Hp, <- !app_assoc.
    cbn [app zip_app combine map length].
    repeat split; auto.
    + constructor; [exact Hl1|].
      eapply Forall_impl; [|exact Hf1]. intros m Hm. cbn beta in Hm. congruence.
    + constructor; [exact Hl2|].
      eapply Forall_impl; [|exact Hf2]. intros m Hm. cbn beta in Hm. congruence.
Qed.

Lemma concatenate_axis1_cons2 (a b : int_matrix) (ms : list int_matrix) :
  concatenate_axis1 (a :: b :: ms)
  = (r <- concatenate_axis1 (b :: ms) ;;
     Ok (map (fun '(x, y) => x ++ y) (combine a r))).
Proof. reflexivity. Qed.

Lemma concatenate_axis1_rows (n : nat) (ms : list int_matrix) :
  forall c, Forall (fun m => length m = n) ms ->
            concatenate_axis1 ms = Ok c -> length c = n.
Proof.
  induction ms as [|a ms IH]; intros c Hf H; [discriminate|].
  inversion Hf as [|? ? Ha Hf']; subst.
  destruct ms as [|a2 ms].
  - cbn in H. now injection H as <-.
  - rewrite concatenate_axis1_cons2 in H.
    destruct (concatenate_axis1 (a2 :: ms)) as [r|e] eqn:Er; [|discriminate].
    cbn [bind] in H. injection H as <-.
    rewrite length_map, length_combine, (IH r Hf' eq_refl). lia.
Qed.

Lemma concatenate_axis1_app (n1 n2 : nat) (ms1 : list int_matrix) :
  forall (ms2 : list int_matrix) (c1 c2 : int_matrix),
    length ms1 = length ms2 ->
    Forall (fun m => length m = n1) ms1 ->
    Forall (fun m => length m = n2) ms2 ->
    concatenate_axis1 ms1 = Ok c1 ->
    concatenate_axis1 ms2 = Ok c2 ->
    concatenate_axis1 (zip_app ms1 ms2) = Ok (c1 ++ c2).
Proof.
  induction ms1 as [|a1 ms1 IH]; intros [|a2 ms2] c1 c2 Hlen Hf1 Hf2 H1 H2;
    try discriminate.
  inversion Hf1 as [|? ? Ha1 Hf1']; inversion Hf2 as [|? ? Ha2 Hf2']; subst.
  destruct ms1 as [|b1 ms1]; destruct ms2 as [|b2 ms2]; try discriminate.
  - cbn in H1, H2. injection H1 as <-. injection H2 as <-. reflexivity.
  - rewrite concatenate_axis1_cons2 in H1, H2.
    destruct (concatenate_axis1 (b1 :: ms1)) as [r1|e] eqn:E1; [|discriminate].
    destruct (concatenate_axis1 (b2 :: ms2)) as [r2|e] eqn:E2; [|discriminate].
    cbn [bind] in H1, H2. injection H1 as <-. injection H2 as <-.
    assert (Hz : concatenate_axis1 (zip_app (b1 :: ms1) (b2 :: ms2))
                 = Ok (r1 ++ r2)).
    { apply IH; auto. }
    unfold zip_app in *. cbn [combine map] in *.
    rewrite concatenate_axis1_cons2. unfold int_matrix in *. rewrite Hz.
    cbn [bind]. f_equal.
    rewrite combine_app_eq, map_app; [reflexivity|].
    now rewrite (concatenate_axis1_rows (length a1) (b1 :: ms1) r1 Hf1' E1).
Qed.

End BatchApp.

(** X13. [get_polytopes] treats the points of a batch one by one: the
    result for two batches put together is the two results put together,
    identifiers and activations alike. The identifier of a point does not
    depend on the other points of its batch. *)
Theorem get_polytopes_batch_app
        (model : Net) (x y : matrix) (penultimate : bool)
        (ids_x ids_y : list Z) (acts_x acts_y : matrix) :
  get_polytopes model x penultimate = Ok ([ids_x], Some acts_x) ->
  get_polytopes model y penultimate = Ok ([ids_y], Some acts_y) ->
  get_polytopes model (x ++ y) penultimate
  = Ok ([ids_x ++ ids_y], Some (acts_x ++ acts_y)).
Proof.
  assert (Hnoop : forall b, get_polytopes model b penultimate
                            = get_polytopes model b false).
  { intros b. destruct penultimate; [apply get_polytopes_penultimate_noop|reflexivity]. }
  rewrite !Hnoop. clear Hnoop.
  unfold get_polytopes, run_layers.
  set (layers := linear_layers model). set (L := length layers).
  intros Hx Hy.
  destruct (layer_loop false L 0 layers (initial_state x)) as [s1|e] eqn:E1;
    [|discriminate].
  destruct (layer_loop false L 0 layers (initial_state y)) as [s2|e] eqn:E2;
    [|discriminate].
  cbn [bind] in Hx, Hy.
  destruct (concatenate_axis1 (polytope_memberships s1)) as [c1|e] eqn:C1;
    [|discriminate].
  destruct (concatenate_axis1 (polytope_memberships s2)) as [c2|e] eqn:C2;
    [|discriminate].
  cbn [bind] in Hx, Hy.
  injection Hx as <- <-. injection Hy as <- <-.
  destruct (layer_loop_app L layers 0 (initial_state x) (initial_state y)
              (initial_state (x ++ y)) s1 s2 E1 E2 eq_refl)
    as (s & ms1 & ms2 & Hs & Hla & Hp1 & Hp2 & Hp & Hn1 & Hn2 & Hf1 & Hf2).
  cbn [initial_state polytope_memberships last_activations app] in *.
  rewrite Hs. cbn [bind]. rewrite Hp.
  rewrite Hp1 in C1. rewrite Hp2 in C2.
  rewrite (concatenate_axis1_app (length x) (length y) ms1 ms2 c1 c2);
    auto; [|congruence].
  cbn [bind]. now rewrite map_app, Hla.
Qed.

(** The two-layer model on the batches [[1]] and [[1/4]]. *)
Lemma get_polytopes_batch_app_witness :
  get_polytopes two_layer_model ([[1]] ++ [[1 # 4]]) false
  = Ok ([[3%Z] ++ [1%Z]], Some ([[1]] ++ [[0 # 4]])).
Proof.
  apply (get_polytopes_batch_app two_layer_model [[1]] [[1 # 4]] false).
  - vm_compute. reflexivity.
  - vm_compute. reflexivity.
Defined.

(** ** The analyzer and the forward pass *)

Section ForwardAgreement.

Variable batch_norm : BatchNorm1d -> matrix -> result matrix.













End ForwardAgreement.



(** ** The mean Gini impurity of a batch *)

Section GiniMean.
Local Open Scope Q_scope.

Lemma mapM_Forall2 {A B : Type} (f : A -> result B) (l : list A) :
  forall bs, mapM f l = Ok bs -> Forall2 (fun a b => f a = Ok b) l bs.
Proof.
  induction l as [|a l IH]; intros bs H.
  - cbn in H. injection H as <-. constructor.
  - cbn [mapM] in H. destruct (f a) as [b|e] eqn:E; [|discriminate].
    cbn [bind] in H. destruct (mapM f l) as [bs'|e]; [|discriminate].
    cbn [bind] in H. injection H as <-. constructor; auto.
Qed.

Lemma mapM_first_error {A B : Type} (f : A -> result B) (a : A) (l : list A) (e : exn) :
  f a = Raise e -> mapM f (a :: l) = Raise e.
Proof. intros H. cbn [mapM]. now rewrite H. Qed.

Lemma insert_unique_In_conv (z x : Z) (l : list Z) :
  x = z \/ In x l -> In x (insert_unique z l).
Proof.
  induction l as [|y l IH]; cbn [insert_unique].
  - intros [->|[]]. now left.
  - destruct (z <? y)%Z eqn:E1.
    + intros [->|H]; [now left | now right].
    + destruct (z =? y)%Z eqn:E2.
      * apply Z.eqb_eq in E2. subst y. intros [->|H]; [now left | exact H].
      * intros [->|[->|H]].
        -- right. apply IH. now left.
        -- now left.
        -- right. apply IH. now right.
Qed.

(** Every value of the array is listed by [np.unique]. *)
Lemma np_unique_In_conv (x : Z) (l : list Z) : In x l -> In x (np_unique l).
Proof.
  induction l as [|z l IH]; [auto|].
  cbn [np_unique fold_right]. intros [->|H]; apply insert_unique_In_conv.
  - now left.
  - right. now apply IH.
Qed.

Lemma np_sum_binary (l : list Q) :
  Forall binary_prediction l ->
  0 <= np_sum l /\ np_sum l <= inject_Z (Z.of_nat (length l)).
Proof.
  induction 1 as [|p l Hp _ IH]; cbn [np_sum fold_right length].
  - split; discriminate || apply Qle_refl.
  - fold (np_sum l). rewrite Nat2Z.inj_succ, <- Z.add_1_r, inject_Z_plus.
    change (inject_Z 1) with 1.
    destruct Hp as [Hp|Hp]; rewrite Hp; lra.
Qed.

Lemma selected_binary (memberships : list Z) (l : Z) (predicts : list Q) :
  Forall binary_prediction predicts ->
  Forall binary_prediction
         (map snd (filter (fun '(m, _) => (m =? l)%Z) (combine memberships predicts))).
Proof.
  intros H. apply Forall_forall. intros p Hp.
  apply in_map_iff in Hp. destruct Hp as ([m q] & <- & Hq).
  apply filter_In in Hq. destruct Hq as [Hq _].
  apply in_combine_r in Hq. rewrite Forall_forall in H. now apply H.
Qed.

Lemma gini_value_bounds (P1 P2 : Q) :
  0 <= P1 -> 0 <= P2 -> 0 < P1 + P2 ->
  0 <= 2 * (P1 / (P1 + P2)) * (P2 / (P1 + P2)) <= 1 # 2.
Proof.
  intros H1 H2 Hd.
  pose proof (fractions_sum P1 P2 Hd) as Hs.
  pose proof (fraction_nonneg P1 _ Hd H1) as Hx.
  pose proof (fraction_nonneg P2 _ Hd H2) as Hy.
  set (x := P1 / (P1 + P2)) in *. set (y := P2 / (P1 + P2)) in *.
  pose proof (Qsquare_nonneg (x - y)) as Hsq.
  split; nra.
Qed.

Lemma region_gini_bounds (memberships : list Z) (predicts : list Q) (l : Z) (g : Q) :
  Forall binary_prediction predicts ->
  region_gini memberships predicts l = Ok g -> 0 <= g <= 1 # 2.
Proof.
  intros Hb H. unfold region_gini, boolean_index in H.
  destruct (Nat.eqb _ _); [|discriminate]. cbn [bind] in H.
  set (cur := map snd _) in *.
  pose proof (np_sum_binary cur (selected_binary memberships l predicts Hb)) as [H0 H1].
  unfold gini_impurity in H.
  destruct (Qeq_bool _ 0) eqn:E; [discriminate|].
  apply Qeq_bool_neq in E. injection H as <-.
  set (n := inject_Z (Z.of_nat (length cur))) in *.
  assert (Hn : 0 <= n).
  { subst n. change 0 with (inject_Z 0). rewrite <- Zle_Qle. lia. }
  apply gini_value_bounds; lra.
Qed.

Lemma np_sum_bounds (a b : Q) (l : list Q) :
  Forall (fun g => a <= g <= b) l ->
  a * inject_Z (Z.of_nat (length l)) <= np_sum l
  /\ np_sum l <= b * inject_Z (Z.of_nat (length l)).
Proof.
  induction 1 as [|g l Hg _ IH]; cbn [np_sum fold_right length].
  - change (inject_Z (Z.of_nat 0)) with 0. lra.
  - fold (np_sum l). rewrite Nat2Z.inj_succ, <- Z.add_1_r, inject_Z_plus.
    change (inject_Z 1) with 1. lra.
Qed.

Lemma np_mean_bounds (a b : Q) (l : list Q) (g : Q) :
  Forall (fun g => a <= g <= b) l -> np_mean l = Ok g -> a <= g <= b.
Proof.
  intros Hl H. pose proof (np_sum_bounds a b l Hl) as [H1 H2].
  destruct l as [|g0 l]; [discriminate|].
  cbn [np_mean] in H. injection H as <-.
  set (n := inject_Z (Z.of_nat (length (g0 :: l)))) in *.
  assert (Hn : 0 < n).
  { subst n. change 0 with (inject_Z 0). rewrite <- Zlt_Qlt. cbn [length]. lia. }
  split.
  - apply Qle_shift_div_l; [exact Hn | exact H1].
  - apply Qle_shift_div_r; [exact Hn | exact H2].
Qed.

End GiniMean.

(** X15. For a non-empty batch with one rounded prediction (0 or 1) per
    point, [gini_impurity_mean] returns a value between 0 and 1/2. *)
Theorem gini_impurity_mean_bounds (memberships : list Z) (predicts : list Q) :
  length memberships = length predicts -> memberships <> [] ->
  Forall binary_prediction predicts ->
  exists g, gini_impurity_mean memberships predicts = Ok g /\ 0 <= g <= 1 # 2.
Proof.
  intros Hlen Hne Hb.
  destruct (gini_impurity_mean_ok memberships predicts Hlen Hne) as (g & Hg).
  exists g. split; [exact Hg|].
  unfold gini_impurity_mean in Hg.
  destruct (mapM _ _) as [gs|e] eqn:E; [|discriminate]. cbn [bind] in Hg.
  apply (np_mean_bounds 0 (1 # 2) gs g); [|exact Hg].
  apply mapM_Forall2 in E.
  clear - E Hb. induction E as [|l g0 ls gs Hl _ IH]; constructor; auto.
  now apply (region_gini_bounds memberships predicts l).
Qed.

(** Five points in three regions. *)
Lemma gini_impurity_mean_bounds_witness :
  exists g, gini_impurity_mean [5; 3; 5; 3; 7]%Z [1; 0; 0; 0; 1] = Ok g /\
            0 <= g <= 1 # 2.
Proof.
  apply (gini_impurity_mean_bounds [5; 3; 5; 3; 7]%Z [1; 0; 0; 0; 1]).
  - reflexivity.
  - discriminate.
  - repeat constructor; (left; reflexivity) || (right; reflexivity).
Defined.

(** X16. [gini_impurity_mean] returns a value exactly for non-empty
    arrays of equal length: an empty batch gives the [nan] of an empty
    mean whatever the predictions, and arrays of different lengths fail in
    the boolean indexing of the first region. *)
Theorem gini_impurity_mean_defined (memberships : list Z) (predicts : list Q) :
  ((exists g, gini_impurity_mean memberships predicts = Ok g) <->
   (memberships <> [] /\ length memberships = length predicts)) /\
  (memberships = [] -> gini_impurity_mean memberships predicts = Raise EmptyMean) /\
  (memberships <> [] -> length memberships <> length predicts ->
   gini_impurity_mean memberships predicts = Raise IndexError).
Proof.
  assert (Hempty : memberships = [] ->
                   gini_impurity_mean memberships predicts = Raise EmptyMean).
  { intros ->. reflexivity. }
  assert (Hmis : memberships <> [] -> length memberships <> length predicts ->
                 gini_impurity_mean memberships predicts = Raise IndexError).
  { intros Hne Hlen. unfold gini_impurity_mean.
    pose proof (np_unique_nonempty memberships Hne) as Hu.
    destruct (np_unique memberships) as [|l ls]; [congruence|].
    rewrite (mapM_first_error _ l ls IndexError); [reflexivity|].
    unfold region_gini, boolean_index.
    replace (Nat.eqb _ _) with false; [reflexivity|].
    symmetry. now apply Nat.eqb_neq. }
  split; [|split; assumption].
  split.
  - intros (g & Hg).
    destruct memberships as [|m ms] eqn:Em.
    + rewrite Hempty in Hg by reflexivity. discriminate.
    + split; [discriminate|].
      destruct (Nat.eq_dec (length (m :: ms)) (length predicts)) as [E|E]; [exact E|].
      rewrite Hmis in Hg; [discriminate | discriminate | exact E].
  - intros (Hne & Hlen). now apply gini_impurity_mean_ok.
Qed.

(** The defined and the failing cases on concrete arrays. *)
Lemma gini_impurity_mean_defined_witness :
  (exists g, gini_impurity_mean [5; 3]%Z [1; 0] = Ok g) /\
  gini_impurity_mean [] [1; 0] = Raise EmptyMean /\
  gini_impurity_mean [5; 3]%Z [1] = Raise IndexError.
Proof.
  split; [|split].
  - apply (proj1 (gini_impurity_mean_defined [5; 3]%Z [1; 0])).
    split; [discriminate | reflexivity].
  - apply (proj1 (proj2 (gini_impurity_mean_defined [] [1; 0]))). reflexivity.
  - apply (proj2 (proj2 (gini_impurity_mean_defined [5; 3]%Z [1])));
      [discriminate | cbn; lia].
Defined.

Section GiniPure.
Local Open Scope Q_scope.

Lemma selected_of_map (f : Z -> Q) (l : Z) (ms : list Z) :
  Forall (fun p => p = f l)
         (map snd (filter (fun '(m, _) => (m =? l)%Z) (combine ms (map f ms)))).
Proof.
  induction ms as [|m ms IH]; cbn [map combine filter]; [constructor|].
  destruct (m =? l)%Z eqn:E; [|exact IH].
  cbn [map snd]. constructor; [|exact IH].
  apply Z.eqb_eq in E. now subst m.
Qed.

Lemma np_sum_constant (c : Q) (l : list Q) :
  Forall (fun p => p = c) l -> np_sum l == inject_Z (Z.of_nat (length l)) * c.
Proof.
  induction 1 as [|p l Hp _ IH]; cbn [np_sum fold_right length].
  - change (inject_Z (Z.of_nat 0)) with 0. ring.
  - fold (np_sum l). rewrite Nat2Z.inj_succ, <- Z.add_1_r, inject_Z_plus, IH, Hp.
    change (inject_Z 1) with 1. ring.
Qed.

Lemma gini_value_zero (P1 P2 : Q) :
  P1 == 0 \/ P2 == 0 -> 2 * (P1 / (P1 + P2)) * (P2 / (P1 + P2)) == 0.
Proof.
  intros [H|H]; rewrite (fraction_zero _ (P1 + P2) H); ring.
Qed.

Lemma region_gini_pure (f : Z -> Q) (ms : list Z) (l : Z) (g : Q) :
  binary_prediction (f l) ->
  region_gini ms (map f ms) l = Ok g -> g == 0.
Proof.
  intros Hb H. unfold region_gini, boolean_index in H.
  destruct (Nat.eqb _ _); [|discriminate]. cbn [bind] in H.
  pose proof (np_sum_constant (f l) _ (selected_of_map f l ms)) as Hs.
  set (cur := map snd _) in *.
  unfold gini_impurity in H. destruct (Qeq_bool _ 0); [discriminate|].
  injection H as <-. apply gini_value_zero.
  destruct Hb as [Hb|Hb]; rewrite Hb in Hs; [left | right]; rewrite Hs; ring.
Qed.

End GiniPure.

(** X17. When the prediction of a point is determined by its region (all
    the points of a region are predicted alike, 0 or 1), the mean Gini
    impurity of a non-empty batch is 0. *)
Theorem gini_impurity_mean_pure (memberships : list Z) (f : Z -> Q) :
  memberships <> [] -> (forall l, binary_prediction (f l)) ->
  exists g, gini_impurity_mean memberships (map f memberships) = Ok g /\ g == 0.
Proof.
  intros Hne Hf.
  destruct (gini_impurity_mean_ok memberships (map f memberships)) as (g & Hg);
    [now rewrite length_map | exact Hne |].
  exists g. split; [exact Hg|].
  unfold gini_impurity_mean in Hg.
  destruct (mapM _ _) as [gs|e] eqn:E; [|discriminate]. cbn [bind] in Hg.
  assert (Hz : Forall (fun g => 0 <= g <= 0) gs).
  { apply mapM_Forall2 in E.
    clear - E Hf. induction E as [|l g0 ls gs Hl _ IH]; constructor; auto.
    pose proof (region_gini_pure f memberships l g0 (Hf l) Hl) as H0.
    rewrite H0. split; apply Qle_refl. }
  pose proof (np_mean_bounds 0 0 gs g Hz Hg) as [H1 H2].
  now apply Qle_antisym.
Qed.

(** Regions 3 and 5, predicted 0 and 1. *)
Lemma gini_impurity_mean_pure_witness :
  exists g,
    gini_impurity_mean [5; 3; 5]%Z (map (fun l => if (l =? 5)%Z then 1 else 0)
                                        [5; 3; 5]%Z) = Ok g /\ g == 0.
Proof.
  apply (gini_impurity_mean_pure [5; 3; 5]%Z (fun l => if (l =? 5)%Z then 1 else 0)).
  - discriminate.
  - intros l. destruct (l =? 5)%Z; [right | left]; reflexivity.
Defined.

(** ** The per-point Gini impurity *)

Section GiniList.

Lemma assign_where_length (m : list Z) (l : Z) (g : Q) (score : list Q) :
  length score = length m -> length (assign_where m l g score) = length m.
Proof.
  intros H. unfold assign_where. rewrite length_map, length_combine. lia.
Qed.

Lemma assign_where_nth (l : Z) (g : Q) (m : list Z) :
  forall (score : list Q) (i : nat) (mi : Z) (s : Q),
    nth_error m i = Some mi -> nth_error score i = Some s ->
    nth_error (assign_where m l g score) i
    = Some (if (mi =? l)%Z then g else s).
Proof.
  unfold assign_where.
  induction m as [|m0 m IH]; intros [|s0 score] [|i] mi s Hm Hs;
    try discriminate; cbn [nth_error combine map] in *.
  - injection Hm as <-. injection Hs as <-. reflexivity.
  - now apply IH.
Qed.

Lemma gini_list_loop_spec (m : list Z) (p : list Q) (ls : list Z) :
  forall (score out : list Q),
    length score = length m ->
    gini_list_loop m p ls score = Ok out ->
    length out = length m /\
    forall (i : nat) (mi : Z) (s : Q),
      nth_error m i = Some mi -> nth_error score i = Some s ->
      (In mi ls -> exists g, region_gini m p mi = Ok g /\ nth_error out i = Some g) /\
      (~ In mi ls -> nth_error out i = Some s).
Proof.
  induction ls as [|l ls IH]; intros score out Hlen H.
  - cbn in H. injection H as <-. split; [exact Hlen|].
    intros i mi s Hm Hs. split; [intros [] | auto].
  - cbn [gini_list_loop] in H.
    destruct (region_gini m p l) as [g|e] eqn:Eg; [|discriminate].
    cbn [bind] in H.
    destruct (IH _ out (assign_where_length m l g score Hlen) H) as (Hout & Hspec).
    split; [exact Hout|].
    intros i mi s Hm Hs.
    pose proof (assign_where_nth l g m score i mi s Hm Hs) as Hs'.
    destruct (Hspec i mi _ Hm Hs') as (Hin & Hnotin).
    destruct (in_dec Z.eq_dec mi ls) as [Hi|Hi].
    + split; [intros _; now apply Hin|].
      intros Hn. exfalso. apply Hn. now right.
    + split.
      * intros [->|Hi']; [|contradiction].
        exists g. split; [exact Eg|].
        rewrite (Hnotin Hi), Z.eqb_refl. reflexivity.
      * intros Hn.
        rewrite (Hnotin Hi).
        replace (mi =? l)%Z with false; [reflexivity|].
        symmetry. apply Z.eqb_neq. intros ->. apply Hn. now left.
Qed.

End GiniList.

(** X18. For arrays of equal length, [gini_impurity_list] returns one
    value per point, in the order of the points: the value at a point is
    the impurity of the region that the point belongs to. *)
Theorem gini_impurity_list_broadcast (memberships : list Z) (predicts : list Q) :
  length memberships = length predicts ->
  exists out,
    gini_impurity_list memberships predicts = Ok out /\
    length out = length memberships /\
    forall (i : nat) (mi : Z),
      nth_error memberships i = Some mi ->
      exists g, region_gini memberships predicts mi = Ok g /\
                nth_error out i = Some g.
Proof.
  intros Hlen.
  destruct (gini_impurity_list_ok memberships predicts Hlen) as (out & Hout).
  exists out. split; [exact Hout|].
  unfold gini_impurity_list in Hout.
  destruct (gini_list_loop_spec memberships predicts _ _ out
              (length_map _ memberships) Hout) as (Hl & Hspec).
  split; [exact Hl|].
  intros i mi Hm.
  assert (Hs : nth_error (map (fun _ : Z => 0) memberships) i = Some 0).
  { rewrite nth_error_map, Hm. reflexivity. }
  destruct (Hspec i mi 0 Hm Hs) as (Hin & _).
  apply Hin, np_unique_In_conv.
  eapply nth_error_In. exact Hm.
Qed.

(** Five points in three regions; the first and third points share one. *)
Lemma gini_impurity_list_broadcast_witness :
  exists out,
    gini_impurity_list [5; 3; 5; 3; 7]%Z [1; 0; 0; 0; 1] = Ok out /\
    length out = 5%nat /\
    nth_error out 0 = nth_error out 2.
Proof.
  destruct (gini_impurity_list_broadcast [5; 3; 5; 3; 7]%Z [1; 0; 0; 0; 1] eq_refl)
    as (out & Hout & Hlen & Hspec).
  exists out. split; [exact Hout|]. split; [exact Hlen|].
  destruct (Hspec 0%nat 5%Z eq_refl) as (g0 & Hg0 & Hn0).
  destruct (Hspec 2%nat 5%Z eq_refl) as (g2 & Hg2 & Hn2).
  rewrite Hn0, Hn2. f_equal. congruence.
Defined.

(** ** Exchanging the two classes *)

Section GiniComplement.
Local Open Scope Q_scope.

Lemma selected_map (c : Q -> Q) (l : Z) (m : list Z) :
  forall p : list Q,
    map snd (filter (fun '(mi, _) => (mi =? l)%Z) (combine m (map c p)))
    = map c (map snd (filter (fun '(mi, _) => (mi =? l)%Z) (combine m p))).
Proof.
  induction m as [|m0 m IH]; intros [|p0 p]; try reflexivity.
  cbn [map combine filter]. destruct (m0 =? l)%Z; cbn [map snd]; now rewrite IH.
Qed.

Lemma np_sum_complement (l : list Q) :
  np_sum (map (fun q => 1 - q) l) == inject_Z (Z.of_nat (length l)) - np_sum l.
Proof.
  induction l as [|q l IH]; cbn [map np_sum fold_right length].
  - change (inject_Z (Z.of_nat 0)) with 0. ring.
  - fold (np_sum l). fold (np_sum (map (fun q => 1 - q) l)).
    rewrite IH, Nat2Z.inj_succ, <- Z.add_1_r, inject_Z_plus.
    change (inject_Z 1) with 1. ring.
Qed.

Lemma region_gini_complement (m : list Z) (p : list Q) (l : Z) (g g' : Q) :
  region_gini m p l = Ok g ->
  region_gini m (map (fun q => 1 - q) p) l = Ok g' ->
  g == g'.
Proof.
  unfold region_gini, boolean_index. rewrite length_map.
  destruct (Nat.eqb _ _); [|discriminate]. cbn [bind].
  rewrite selected_map.
  set (cur := map snd _).
  pose proof (np_sum_complement cur) as Hs.
  rewrite length_map.
  set (n := inject_Z (Z.of_nat (length cur))) in *.
  set (pos := np_sum cur) in *.
  set (pos' := np_sum (map (fun q => 1 - q) cur)) in *.
  unfold gini_impurity.
  destruct (Qeq_bool (pos + (n - pos)) 0) eqn:E; [discriminate|].
  destruct (Qeq_bool (pos' + (n - pos')) 0) eqn:E'; [discriminate|].
  intros H H'. injection H as <-. injection H' as <-.
  apply Qeq_bool_neq in E.
  rewrite Hs. field. intros Hz. apply E. rewrite <- Hz. ring.
Qed.

Lemma np_sum_proper (l l' : list Q) : Forall2 Qeq l l' -> np_sum l == np_sum l'.
Proof.
  induction 1 as [|q q' l l' Hq _ IH]; cbn [np_sum fold_right]; [reflexivity|].
  fold (np_sum l). fold (np_sum l'). now rewrite Hq, IH.
Qed.

Lemma np_mean_proper (l l' : list Q) (g g' : Q) :
  Forall2 Qeq l l' -> np_mean l = Ok g -> np_mean l' = Ok g' -> g == g'.
Proof.
  intros H Hg Hg'. pose proof (np_sum_proper l l' H) as Hs.
  pose proof (Forall2_length H) as Hl.
  destruct l as [|q l]; [discriminate|]. destruct l' as [|q' l']; [discriminate|].
  cbn [np_mean] in Hg, Hg'. injection Hg as <-. injection Hg' as <-.
  change (np_sum (q :: l)) with (q + np_sum l) in Hs.
  change (np_sum (q' :: l')) with (q' + np_sum l') in Hs.
  cbn [length] in Hl. injection Hl as Hl.
  rewrite Hs, Hl. reflexivity.
Qed.

End GiniComplement.

(** X19. Exchanging the two classes, that is, replacing every prediction
    [p] by [1 - p], does not change the mean Gini impurity of a batch. *)
Theorem gini_impurity_mean_complement (memberships : list Z) (predicts : list Q) :
  length memberships = length predicts -> memberships <> [] ->
  exists g g',
    gini_impurity_mean memberships predicts = Ok g /\
    gini_impurity_mean memberships (map (fun q => 1 - q) predicts) = Ok g' /\
    g == g'.
Proof.
  intros Hlen Hne.
  destruct (gini_impurity_mean_ok memberships predicts Hlen Hne) as (g & Hg).
  destruct (gini_impurity_mean_ok memberships (map (fun q => 1 - q) predicts))
    as (g' & Hg'); [now rewrite length_map | exact Hne |].
  exists g, g'. split; [exact Hg|]. split; [exact Hg'|].
  unfold gini_impurity_mean in Hg, Hg'.
  destruct (mapM (region_gini memberships predicts) _) as [gs|e] eqn:E;
    [|discriminate].
  destruct (mapM (region_gini memberships (map _ predicts)) _) as [gs'|e] eqn:E';
    [|discriminate].
  cbn [bind] in Hg, Hg'.
  apply (np_mean_proper gs gs' g g'); auto.
  apply mapM_Forall2 in E, E'.
  clear - E E'. revert gs' E'.
  induction E as [|l g0 ls gs Hl _ IH]; intros gs' E';
    inversion E' as [|? g1 ? gs1 Hl' E1]; subst; constructor.
  - exact (region_gini_complement memberships predicts l g0 g1 Hl Hl').
  - now apply IH.
Qed.

(** Five points in three regions, and their exchanged predictions. *)
Lemma gini_impurity_mean_complement_witness :
  exists g g',
    gini_impurity_mean [5; 3; 5; 3; 7]%Z [1; 0; 0; 0; 1] = Ok g /\
    gini_impurity_mean [5; 3; 5; 3; 7]%Z (map (fun q => 1 - q) [1; 0; 0; 0; 1])
    = Ok g' /\
    g == g'.
Proof.
  apply (gini_impurity_mean_complement [5; 3; 5; 3; 7]%Z [1; 0; 0; 0; 1]).
  - reflexivity.
  - discriminate.
Defined.

(** ** The Hellinger distance as a distance *)

Section HellingerMetric.
Local Open Scope R_scope.

Lemma sq_diff_row_sym (p : list R) : forall q, sq_diff_row p q = sq_diff_row q p.
Proof.
  unfold sq_diff_row.
  induction p as [|a p IH]; intros [|b q]; try reflexivity.
  cbn [combine map Rsum fold_right].
  fold (Rsum (map (fun '(a, b) => (sqrt a - sqrt b) ^ 2) (combine p q))).
  fold (Rsum (map (fun '(a, b) => (sqrt a - sqrt b) ^ 2) (combine q p))).
  rewrite (IH q). ring.
Qed.

Lemma row_distances_sym (p : list (list R)) :
  forall q, row_distances p q = row_distances q p.
Proof.
  unfold row_distances.
  induction p as [|pr p IH]; intros [|qr q]; try reflexivity.
  cbn [combine map]. now rewrite (IH q), sq_diff_row_sym.
Qed.

(** X20. The Hellinger distance does not depend on the order of its two
    arguments. *)
Theorem hellinger_explicit_sym (p q : list (list R)) :
  hellinger_explicit p q = hellinger_explicit q p.
Proof.
  unfold hellinger_explicit.
  fold (row_distances p q). fold (row_distances q p).
  now rewrite (row_distances_sym p q).
Qed.

Lemma Rsum_nonneg_zero (l : list R) :
  Forall (fun v => 0 <= v) l -> Rsum l = 0 -> Forall (fun v => v = 0) l.
Proof.
  induction 1 as [|v l Hv Hl IH]; intros Hs; constructor.
  - cbn [Rsum fold_right] in Hs. fold (Rsum l) in Hs.
    assert (0 <= Rsum l).
    { clear - Hl. induction Hl as [|w l Hw _ IHl]; cbn; [lra|].
      fold (Rsum l). lra. }
    lra.
  - apply IH. cbn [Rsum fold_right] in Hs. fold (Rsum l) in Hs.
    assert (0 <= Rsum l).
    { clear - Hl. induction Hl as [|w l Hw _ IHl]; cbn; [lra|].
      fold (Rsum l). lra. }
    lra.
Qed.

Lemma sq_diff_row_zero (p : list R) : forall q,
  length p = length q ->
  Forall (fun v => 0 <= v) p -> Forall (fun v => 0 <= v) q ->
  sq_diff_row p q = 0 -> p = q.
Proof.
  induction p as [|a p IH]; intros [|b q] Hlen Hp Hq Hz; try discriminate.
  - reflexivity.
  - inversion Hp as [|? ? Ha Hp']; inversion Hq as [|? ? Hb Hq']; subst.
    unfold sq_diff_row in Hz. cbn [combine map Rsum fold_right] in Hz.
    fold (Rsum (map (fun '(a, b) => (sqrt a - sqrt b) ^ 2) (combine p q))) in Hz.
    fold (sq_diff_row p q) in Hz.
    pose proof (sq_diff_row_nonneg p q) as Hn.
    pose proof (pow2_ge_0 (sqrt a - sqrt b)) as Hsq.
    assert (H1 : (sqrt a - sqrt b) ^ 2 = 0) by lra.
    assert (H2 : sq_diff_row p q = 0) by lra.
    f_equal.
    + apply sqrt_inj; auto.
      assert (sqrt a - sqrt b = 0).
      { destruct (Req_dec (sqrt a - sqrt b) 0) as [E|E]; [exact E|].
        exfalso. exact (pow_nonzero _ 2 E H1). }
      lra.
    + apply IH; auto.
Qed.

Lemma hellinger_row_zero (p q : list R) :
  length p = length q ->
  Forall (fun v => 0 <= v) p -> Forall (fun v => 0 <= v) q ->
  sqrt (sq_diff_row p q) / sqrt 2 = 0 -> p = q.
Proof.
  intros Hlen Hp Hq Hz. apply sq_diff_row_zero; auto.
  pose proof sqrt2_pos as H2.
  apply sqrt_eq_0; [apply sq_diff_row_nonneg|].
  apply (Rmult_eq_reg_r (/ sqrt 2)).
  - unfold Rdiv in Hz. rewrite Hz. ring.
  - apply Rinv_neq_0_compat. lra.
Qed.

Lemma row_distances_nonneg (p q : list (list R)) :
  Forall (fun v => 0 <= v) (row_distances p q).
Proof.
  unfold row_distances. apply Forall_forall. intros v Hv.
  apply in_map_iff in Hv. destruct Hv as ([pr qr] & <- & _).
  pose proof sqrt2_pos.
  apply Rmult_le_pos; [apply sqrt_pos|].
  left. now apply Rinv_0_lt_compat.
Qed.

End HellingerMetric.

(** X21. Two arrays of one shape, with non-negative entries and at least
    one row, are at Hellinger distance 0 exactly when they are equal. *)
Theorem hellinger_zero_iff_equal (p q : list (list R)) :
  same_shape p q -> p <> [] ->
  Forall (Forall (fun v => 0 <= v)%R) p -> Forall (Forall (fun v => 0 <= v)%R) q ->
  (hellinger_explicit p q = Ok 0%R <-> p = q).
Proof.
  intros Hsh Hne Hp Hq. split.
  - intros H. unfold hellinger_explicit in H. fold (row_distances p q) in H.
    pose proof (row_distances_nonneg p q) as Hn.
    assert (Hz : Forall (fun v => v = 0%R) (row_distances p q)).
    { apply Rsum_nonneg_zero; [exact Hn|].
      destruct (row_distances p q) as [|v l] eqn:E; [discriminate|].
      assert (E0 : (Rsum (v :: l) / INR (length (v :: l)) = 0)%R)
        by (cbn [Rmean] in H; congruence).
      assert (Hpos : (0 < INR (length (v :: l)))%R) by (apply lt_0_INR; cbn; lia).
      apply (Rmult_eq_reg_r (/ INR (length (v :: l)))).
      - unfold Rdiv in E0. rewrite E0. ring.
      - apply Rinv_neq_0_compat. lra. }
    clear - Hsh Hp Hq Hz. unfold row_distances in Hz.
    induction Hsh as [|pr qr p q Hl _ IH]; [reflexivity|].
    inversion Hp as [|? ? Hpr Hp']; inversion Hq as [|? ? Hqr Hq']; subst.
    cbn [combine map] in Hz. inversion Hz as [|? ? Hz0 Hz']; subst.
    f_equal.
    + now apply hellinger_row_zero.
    + now apply IH.
  - intros <-.
    assert (Hne' : row_distances p p <> []).
    { pose proof (row_distances_length p p Hsh) as Hl.
      intros E. rewrite E in Hl. destruct p; [congruence|discriminate]. }
    assert (Hz : Forall (fun v => 0 <= v <= 0)%R (row_distances p p)).
    { apply row_distances_Forall.
      clear. induction p as [|r p IH]; constructor; auto.
      rewrite hellinger_row_refl. lra. }
    destruct (Rmean_bounds 0 0 _ Hne' Hz) as (d & Hd & _ & Hb).
    unfold hellinger_explicit. fold (row_distances p p). rewrite Hd.
    f_equal. lra.
Qed.

(** One row compared with itself. *)
Lemma hellinger_zero_iff_equal_witness :
  hellinger_explicit [[1; 0]]%R [[1; 0]]%R = Ok 0%R.
Proof.
  apply (hellinger_zero_iff_equal [[1; 0]]%R [[1; 0]]%R).
  - repeat constructor.
  - discriminate.
  - repeat constructor; lra.
  - repeat constructor; lra.
  - reflexivity.
Defined.

(** ** Collected results *)

Section ExtractLosses.

Lemma Forall2_nth_error {A B : Type} (R : A -> B -> Prop) (l : list A) (l' : list B) :
  Forall2 R l l' ->
  forall k a, nth_error l k = Some a -> exists b, nth_error l' k = Some b /\ R a b.
Proof.
  induction 1 as [|x y l l' Hxy _ IH]; intros [|k] a Hk; try discriminate.
  - injection Hk as <-. exists y. split; [reflexivity | exact Hxy].
  - now apply IH.
Qed.

Lemma nth_error_seq_1 (n k : nat) :
  (k < n)%nat -> nth_error (seq 1 n) k = Some (S k).
Proof.
  intros H. rewrite (nth_error_nth' _ 0%nat) by (now rewrite length_seq).
  now rewrite seq_nth.
Qed.

Lemma item_Some (err : list entry) (idx : nat) (e : entry) :
  item err idx = Ok e -> nth_error err idx = Some e.
Proof.
  unfold item. destruct (nth_error err idx); intros H; [congruence | discriminate].
Qed.

Lemma mapM_length {A B : Type} (f : A -> result B) (l : list A) (bs : list B) :
  mapM f l = Ok bs -> length bs = length l.
Proof.
  intros H. apply mapM_Forall2 in H. symmetry. exact (Forall2_length H).
Qed.

End ExtractLosses.

(** X22. When [extract_losses] returns, it returns as many arrays as the
    first repetition has entries; the first array has one row of final
    losses per repetition, and the array at every further index [k] holds,
    for each repetition in order, the entry that the repetition stores at
    index [k]. It does not return for an empty list of repetitions. *)
Theorem extract_losses_transposes (rep_full_list : list (list entry))
        (out : list column) :
  extract_losses rep_full_list = Ok out ->
  exists first others finals cols,
    rep_full_list = first :: others /\
    out = Final finals :: cols /\
    length out = length first /\
    Forall2 (fun rep fl => final_loss rep = Ok fl) rep_full_list finals /\
    forall k, (1 <= k < length first)%nat ->
      exists rows,
        nth_error out k = Some (Column rows) /\
        Forall2 (fun rep e => nth_error rep k = Some e) rep_full_list rows.
Proof.
  unfold extract_losses. intros H.
  destruct (mapM final_loss rep_full_list) as [finals|e] eqn:Ef; [|discriminate].
  cbn [bind] in H.
  destruct rep_full_list as [|first others] eqn:Er; [discriminate|].
  rewrite <- Er in *.
  destruct (mapM _ (seq 1 (length first - 1))) as [cols|e] eqn:Ec; [|discriminate].
  cbn [bind] in H. injection H as <-.
  exists first, others, finals, cols.
  pose proof (mapM_length _ _ _ Ec) as Hlen. rewrite length_seq in Hlen.
  assert (Hfirst : (1 <= length first)%nat).
  { apply mapM_Forall2 in Ef. rewrite Er in Ef.
    inversion Ef as [|? ? ? ? Hf _]; subst.
    destruct first; [discriminate | cbn; lia]. }
  split; [exact Er|]. split; [reflexivity|].
  split; [cbn [length]; lia|].
  split; [now apply mapM_Forall2|].
  intros k Hk. destruct k as [|k]; [lia|]. cbn [nth_error].
  apply mapM_Forall2 in Ec.
  destruct (Forall2_nth_error _ _ _ Ec k (S k)) as (col & Hcol & Hrows).
  { apply nth_error_seq_1. lia. }
  destruct (mapM (fun err => item err (S k)) rep_full_list) as [rows|e] eqn:Erows;
    [|discriminate].
  cbn [bind] in Hrows. injection Hrows as <-.
  exists rows. split; [exact Hcol|].
  apply mapM_Forall2 in Erows.
  eapply Forall2_impl; [|exact Erows].
  intros rep e He. exact (item_Some rep (S k) e He).
Qed.

(** Two repetitions with two entries each. *)
Lemma extract_losses_transposes_witness :
  exists out rows,
    extract_losses [[Traces [[3; 2]]; Series [7]]; [Traces [[5; 4]]; Series [9]]]
    = Ok out /\
    nth_error out 1 = Some (Column rows) /\
    rows = [Series [7]; Series [9]].
Proof.
  eexists. eexists.
  assert (H : extract_losses
                [[Traces [[3; 2]]; Series [7]]; [Traces [[5; 4]]; Series [9]]]
              = Ok _) by (vm_compute; reflexivity).
  split; [exact H|].
  destruct (extract_losses_transposes _ _ H) as (f & o & fin & cols & _ & _ & _ & _ & Hk).
  split; reflexivity.
Defined.

Section CollectResults.

Lemma mapM_last_item (steps : list step_metrics) :
  Forall (fun s => losses s <> []) steps ->
  mapM last_item (map losses steps)
  = Ok (map (fun s => last (losses s) 0) steps).
Proof.
  induction 1 as [|s steps Hs _ IH]; [reflexivity|].
  cbn [map mapM]. rewrite IH.
  unfold last_item at 1. destruct (losses s); [congruence|reflexivity].
Qed.

Lemma mapM_final_loss (reps : list (list step_metrics)) :
  Forall (Forall (fun s => losses s <> [])) reps ->
  mapM final_loss (map rep_record reps)
  = Ok (map (fun steps => map (fun s => last (losses s) 0) steps) reps).
Proof.
  induction 1 as [|steps reps Hs _ IH]; [reflexivity|].
  cbn [map mapM]. rewrite IH.
  unfold final_loss, rep_record at 1. now rewrite (mapM_last_item steps Hs).
Qed.

Lemma mapM_item (idx : nat) (reps : list (list step_metrics)) :
  (idx < 12)%nat ->
  mapM (fun err => item err idx) (map rep_record reps)
  = Ok (map (fun steps => nth idx (rep_record steps) (Series [])) reps).
Proof.
  intros Hidx. induction reps as [|steps reps IH]; [reflexivity|].
  cbn [map mapM]. rewrite IH.
  replace (item (rep_record steps) idx)
    with (Ok (nth idx (rep_record steps) (Series []))); [reflexivity|].
  do 12 (destruct idx as [|idx]; [reflexivity|]). lia.
Qed.

End CollectResults.

(** X23. At the end of [run_experiment] the attributes of the result do
    not all hold what their names say: [test_err_list] receives, for each
    repetition, the values [1 - train_acc] of its models, and
    [train_err_list] the values [1 - test_acc]; the two loss attributes
    are not exchanged. The first attribute holds the last loss of every
    trace. *)
Theorem collect_results_attributes (reps : list (list step_metrics)) :
  reps <> [] ->
  Forall (Forall (fun s => losses s <> [])) reps ->
  exists res,
    collect_results reps = Ok res /\
    Res.test_err_list res
    = Column (map (fun steps => Series (map (fun s => 1 - train_acc s) steps)) reps) /\
    Res.train_err_list res
    = Column (map (fun steps => Series (map (fun s => 1 - test_acc s) steps)) reps) /\
    Res.train_loss_list res
    = Column (map (fun steps => Series (map train_loss steps)) reps) /\
    Res.test_loss_list res
    = Column (map (fun steps => Series (map test_loss steps)) reps) /\
    Res.full_loss_list res
    = Final (map (fun steps => map (fun s => last (losses s) 0) steps) reps).
Proof.
  intros Hne Hl. unfold collect_results, extract_losses.
  rewrite (mapM_final_loss reps Hl). cbn [bind].
  destruct reps as [|steps reps]; [congruence|].
  change (map rep_record (steps :: reps))
    with (rep_record steps :: map rep_record reps).
  cbv beta iota.
  change (length (rep_record steps) - 1)%nat with 11%nat.
  change (rep_record steps :: map rep_record reps)
    with (map rep_record (steps :: reps)).
  cbn [seq mapM].
  rewrite !mapM_item by lia. cbn [bind assign_result].
  eexists. split; [reflexivity|].
  repeat split; reflexivity.
Qed.

(** One repetition of one model with train accuracy 3/4 and test accuracy
    1/2: [test_err_list] holds 1 - 3/4. *)
Lemma collect_results_attributes_witness :
  exists res,
    collect_results [[mkStep [2; 1] 4 1 1 (3 # 4) (1 # 2) 0 0 0]] = Ok res /\
    Res.test_err_list res = Column [Series [1 - (3 # 4)]] /\
    Res.train_err_list res = Column [Series [1 - (1 # 2)]].
Proof.
  destruct (collect_results_attributes
              [[mkStep [2; 1] 4 1 1 (3 # 4) (1 # 2) 0 0 0]])
    as (res & Hres & H1 & H2 & _).
  - discriminate.
  - repeat constructor; discriminate.
  - exists res. split; [exact Hres|]. split; [exact H1 | exact H2].
Defined.

(** ** Datasets *)

Section TakeRows.

Lemma take_ok {A : Type} (d : A) (a : list A) (idx : list nat) :
  Forall (fun i => (i < length a)%nat) idx ->
  take a idx = Ok (map (fun i => nth i a d) idx).
Proof.
  unfold take. induction 1 as [|i idx Hi _ IH]; [reflexivity|].
  cbn [mapM map]. rewrite IH.
  rewrite (nth_error_nth' a d Hi). reflexivity.
Qed.

Lemma take_fail {A : Type} (a : list A) (idx : list nat) :
  Exists (fun i => (length a <= i)%nat) idx -> take a idx = Raise IndexError.
Proof.
  unfold take. induction 1 as [i idx Hi|i idx _ IH]; cbn [mapM].
  - apply nth_error_None in Hi. now rewrite Hi.
  - destruct (nth_error a i); [|reflexivity]. cbn [bind]. now rewrite IH.
Qed.

Lemma map_nth_seq {A : Type} (d : A) (a : list A) :
  map (fun i => nth i a d) (seq 0 (length a)) = a.
Proof.
  induction a as [|x a IH]; [reflexivity|].
  cbn [length seq map nth]. f_equal.
  rewrite <- seq_shift, map_map. exact IH.
Qed.

End TakeRows.

Section DatasetFacts.

Variable rng : Type.
Variable multivariate_normal : rng -> vec2 -> R -> nat -> list vec2 * rng.
Variable permutation : rng -> nat -> list nat * rng.
Variable py_rng : Type.
Variable random_sample : py_rng -> nat -> nat -> result (list nat * py_rng).
Variable is_available : bool.
Variable cuda_x : list vec2 -> result (list vec2).
Variable cuda_y : list (list Z) -> result (list (list Z)).
Variable one_hot : list Z -> result (list (list Z)).

Hypothesis multivariate_normal_size :
  forall g mean s size, length (fst (multivariate_normal g mean s size)) = size.
Hypothesis permutation_spec :
  forall g n, Permutation (fst (permutation g n)) (seq 0 n).

Lemma quarter_of_nat (n : nat) : Z.to_nat (quarter (Z.of_nat n)) = (n / 4)%nat.
Proof.
  unfold quarter. rewrite Z.quot_div_nonneg by lia.
  change 4%Z with (Z.of_nat 4). rewrite <- Nat2Z.inj_div. apply Nat2Z.id.
Qed.

Lemma generate_of_nat (g : rng) (n : nat) (s : R) :
  exists X g1,
    generate_gaussian_parity multivariate_normal g (Z.of_nat n) s (Some 0%R)
    = Ok (X, labels (n / 4), g1) /\
    length X = (4 * (n / 4))%nat.
Proof.
  destruct (generate_gaussian_parity_ok rng multivariate_normal
              multivariate_normal_size g (Z.of_nat n) s 0%R ltac:(lia))
    as (X & Y & g1 & HX & Hlen & _).
  exists X, g1. split.
  - rewrite HX. unfold generate_gaussian_parity in HX.
    destruct (quarter (Z.of_nat n) <? 0)%Z; [discriminate|].
    destruct (draw_blobs _ _ _ _ _) as [blob g']. injection HX as _ <- _.
    now rewrite quarter_of_nat.
  - apply Nat2Z.inj. rewrite Hlen, Z.quot_div_nonneg by lia.
    change 4%Z with (Z.of_nat 4) at 2. rewrite <- Nat2Z.inj_div. lia.
Qed.

(** A multiple of 4: the shuffle returns the generated points and labels
    rearranged by one permutation. *)
Lemma shuffled_ok (g : rng) (n : nat) (s : R) :
  (n mod 4 = 0)%nat ->
  exists X perm g2,
    Permutation perm (seq 0 n) /\ length X = n /\
    shuffled multivariate_normal permutation g n s
    = Ok (map (fun i => nth i X (0, 0)%R) perm,
          map (fun i => nth i (labels (n / 4)) 0%Z) perm, g2).
Proof.
  intros Hmod.
  destruct (generate_of_nat g n s) as (X & g1 & HX & Hlen).
  assert (Hn : (4 * (n / 4) = n)%nat).
  { pose proof (Nat.div_mod_eq n 4). lia. }
  rewrite Hn in Hlen.
  exists X, (fst (permutation g1 n)), (snd (permutation g1 n)).
  split; [apply permutation_spec|]. split; [exact Hlen|].
  unfold shuffled. rewrite HX. cbn [bind].
  destruct (permutation g1 n) as [perm g2] eqn:Ep. cbn [fst snd].
  assert (Hin : Forall (fun i => (i < n)%nat) perm).
  { apply Forall_forall. intros i Hi.
    pose proof (permutation_spec g1 n) as Hp. rewrite Ep in Hp. cbn [fst] in Hp.
    apply (Permutation_in _ Hp) in Hi. apply in_seq in Hi. lia. }
  rewrite (take_ok ((0, 0)%R : vec2) X perm) by (now rewrite Hlen).
  cbn [bind].
  rewrite (take_ok 0%Z (labels (n / 4)) perm)
    by (rewrite labels_length, Hn; exact Hin).
  reflexivity.
Qed.

(** Not a multiple of 4: fewer than [n] points are generated, and the
    permutation of [n] reaches beyond them. *)
Lemma shuffled_fail (g : rng) (n : nat) (s : R) :
  (n mod 4 <> 0)%nat ->
  shuffled multivariate_normal permutation g n s = Raise IndexError.
Proof.
  intros Hmod.
  destruct (generate_of_nat g n s) as (X & g1 & HX & Hlen).
  assert (Hn : (4 * (n / 4) < n)%nat).
  { pose proof (Nat.div_mod_eq n 4). lia. }
  unfold shuffled. rewrite HX. cbn [bind].
  destruct (permutation g1 n) as [perm g2] eqn:Ep.
  rewrite (take_fail X perm); [reflexivity|].
  apply Exists_exists. exists (n - 1)%nat. split; [|lia].
  pose proof (permutation_spec g1 n) as Hp. rewrite Ep in Hp. cbn [fst] in Hp.
  apply (Permutation_in _ (Permutation_sym Hp)). apply in_seq. lia.
Qed.

Lemma permuted_labels (n : nat) (perm : list nat) :
  (n mod 4 = 0)%nat -> Permutation perm (seq 0 n) ->
  Permutation (map (fun i => nth i (labels (n / 4)) 0%Z) perm) (labels (n / 4)).
Proof.
  intros Hmod Hp.
  assert (Hn : (4 * (n / 4) = n)%nat).
  { pose proof (Nat.div_mod_eq n 4). lia. }
  pose proof (map_nth_seq 0%Z (labels (n / 4))) as E.
  rewrite labels_length, Hn in E.
  eapply Permutation_trans; [apply Permutation_map; exact Hp|].
  rewrite E. apply Permutation_refl.
Qed.

End DatasetFacts.

(** X24. For a multiple of 4, [get_dataset] without hybrid sets and
    without one-hot labels returns [N] training points and [2 * N] test
    points. The training points are the generated points rearranged by a
    permutation and every point keeps its label; the labels of either set
    are half ones and half zeros. *)
Theorem get_dataset_sizes
        (rng : Type)
        (multivariate_normal : rng -> vec2 -> R -> nat -> list vec2 * rng)
        (permutation : rng -> nat -> list nat * rng)
        (py_rng : Type)
        (random_sample : py_rng -> nat -> nat -> result (list nat * py_rng))
        (is_available : bool)
        (cuda_x : list vec2 -> result (list vec2))
        (cuda_y : list (list Z) -> result (list (list Z)))
        (one_hot : list Z -> result (list (list Z)))
        (g : rng) (pg : py_rng) (N : nat) (cov_scale : R) :
  (forall g mean s size, length (fst (multivariate_normal g mean s size)) = size) ->
  (forall g n, Permutation (fst (permutation g n)) (seq 0 n)) ->
  (is_available = true ->
   (forall v, cuda_x v = Ok v) /\ (forall v, cuda_y v = Ok v)) ->
  (N mod 4 = 0)%nat ->
  exists d g',
    get_dataset multivariate_normal permutation random_sample is_available
                cuda_x cuda_y one_hot g pg N false cov_scale false
    = Ok (d, g', pg) /\
    length (train_x d) = N /\ length (test_x d) = (2 * N)%nat /\
    (exists X perm,
        Permutation perm (seq 0 N) /\ length X = N /\
        train_x d = map (fun i => nth i X (0, 0)%R) perm /\
        train_y d = map (fun i => [nth i (labels (N / 4)) 0%Z]) perm) /\
    Permutation (train_y d) (unsqueeze (labels (N / 4))) /\
    Permutation (test_y d) (unsqueeze (labels (2 * N / 4))) /\
    hybrid_sets d = None.
Proof.
  intros Hsize Hperm Hcuda Hmod.
  assert (Hmod2 : ((2 * N) mod 4 = 0)%nat).
  { pose proof (Nat.div_mod_eq N 4) as E.
    replace (2 * N)%nat with (0 + (2 * (N / 4)) * 4)%nat by lia.
    now rewrite Nat.Div0.mod_add. }
  destruct (shuffled_ok rng multivariate_normal permutation Hsize Hperm g N
              cov_scale Hmod) as (X & p & g1 & Hp & HX & Hs1).
  destruct (shuffled_ok rng multivariate_normal permutation Hsize Hperm g1 (2 * N)
              cov_scale Hmod2) as (X2 & p2 & g2 & Hp2 & HX2 & Hs2).
  set (tx := map (fun i => nth i X (0, 0)%R) p) in *.
  set (ty := map (fun i => nth i (labels (N / 4)) 0%Z) p) in *.
  set (sx := map (fun i => nth i X2 (0, 0)%R) p2) in *.
  set (sy := map (fun i => nth i (labels (2 * N / 4)) 0%Z) p2) in *.
  exists {| train_x := tx; train_y := unsqueeze ty; test_x := sx;
            test_y := unsqueeze sy; hybrid_sets := None |}, g2.
  split.
  { unfold get_dataset. rewrite Hs1. cbn [bind]. rewrite Hs2. cbn [bind].
    destruct is_available.
    - destruct (Hcuda eq_refl) as [Hx Hy]. rewrite !Hx, !Hy. reflexivity.
    - reflexivity. }
  cbn [train_x train_y test_x test_y hybrid_sets].
  pose proof (Permutation_length Hp) as Lp. rewrite length_seq in Lp.
  pose proof (Permutation_length Hp2) as Lp2. rewrite length_seq in Lp2.
  split; [subst tx; now rewrite length_map|].
  split; [subst sx; now rewrite length_map|].
  split.
  { exists X, p. repeat split; auto.
    subst ty. unfold unsqueeze. now rewrite map_map. }
  split; [|split; [|reflexivity]].
  - apply Permutation_map. subst ty. now apply permuted_labels.
  - apply Permutation_map. subst sy. now apply permuted_labels.
Qed.

(** The degenerate sampler, the identity as permutation, no device. *)
Lemma get_dataset_sizes_witness :
  exists d g',
    get_dataset mean_sampler (fun (g : unit) n => (seq 0 n, g))
                (fun (pg : unit) _ _ => Ok ([], pg)) false
                (fun v => Ok v) (fun v => Ok v) (fun y => Ok (unsqueeze y))
                tt tt 4 false 1%R false
    = Ok (d, g', tt) /\
    length (train_x d) = 4%nat /\ length (test_x d) = 8%nat.
Proof.
  destruct (get_dataset_sizes unit mean_sampler (fun (g : unit) n => (seq 0 n, g))
              unit (fun (pg : unit) _ _ => Ok ([], pg)) false
              (fun v => Ok v) (fun v => Ok v) (fun y => Ok (unsqueeze y))
              tt tt 4 1%R)
    as (d & g' & Hd & H1 & H2 & _).
  - intros g mean s size. apply repeat_length.
  - intros g n. apply Permutation_refl.
  - discriminate.
  - reflexivity.
  - exists d, g'. split; [exact Hd|]. split; [exact H1 | exact H2].
Defined.

(** X25. [get_dataset] does not return for a sample count that the
    generator truncates: without hybrid sets every [N] that is not a
    multiple of 4 ends in an [IndexError], and so does every odd [N] with
    hybrid sets, because the permutation of the requested size indexes
    beyond the points that were generated. *)
Theorem get_dataset_truncated_fails
        (rng : Type)
        (multivariate_normal : rng -> vec2 -> R -> nat -> list vec2 * rng)
        (permutation : rng -> nat -> list nat * rng)
        (py_rng : Type)
        (random_sample : py_rng -> nat -> nat -> result (list nat * py_rng))
        (is_available : bool)
        (cuda_x : list vec2 -> result (list vec2))
        (cuda_y : list (list Z) -> result (list (list Z)))
        (one_hot : list Z -> result (list (list Z)))
        (g : rng) (pg : py_rng) (N : nat) (one_hot_flag : bool) (cov_scale : R) :
  (forall g mean s size, length (fst (multivariate_normal g mean s size)) = size) ->
  (forall g n, Permutation (fst (permutation g n)) (seq 0 n)) ->
  ((N mod 4 <> 0)%nat ->
   get_dataset multivariate_normal permutation random_sample is_available
               cuda_x cuda_y one_hot g pg N one_hot_flag cov_scale false
   = Raise IndexError) /\
  ((N mod 2 <> 0)%nat ->
   get_dataset multivariate_normal permutation random_sample is_available
               cuda_x cuda_y one_hot g pg N one_hot_flag cov_scale true
   = Raise IndexError).
Proof.
  intros Hsize Hperm. split; intros Hmod; unfold get_dataset.
  - now rewrite (shuffled_fail rng multivariate_normal permutation Hsize Hperm
                   g N cov_scale Hmod).
  - rewrite (shuffled_fail rng multivariate_normal permutation Hsize Hperm
               g (2 * N) cov_scale); [reflexivity|].
    pose proof (Nat.div_mod_eq N 2) as E.
    pose proof (Nat.mod_upper_bound N 2 ltac:(lia)) as B.
    replace (2 * N)%nat with (2 + (N / 2) * 4)%nat by lia.
    rewrite Nat.Div0.mod_add. cbn. lia.
Qed.

(** Five samples asked of the degenerate sampler. *)
Lemma get_dataset_truncated_fails_witness :
  get_dataset mean_sampler (fun (g : unit) n => (seq 0 n, g))
              (fun (pg : unit) _ _ => Ok ([], pg)) false
              (fun v => Ok v) (fun v => Ok v) (fun y => Ok (unsqueeze y))
              tt tt 5 false 1%R false
  = Raise IndexError.
Proof.
  apply (get_dataset_truncated_fails unit mean_sampler
           (fun (g : unit) n => (seq 0 n, g))
           unit (fun (pg : unit) _ _ => Ok ([], pg)) false
           (fun v => Ok v) (fun v => Ok v) (fun y => Ok (unsqueeze y))
           tt tt 5 false 1%R).
  - intros g mean s size. apply repeat_length.
  - intros g n. apply Permutation_refl.
  - cbn. lia.
Defined.

(** ** The number of activated regions *)

Section RegionCount.

Lemma HdRel_insert_unique (y z : Z) (l : list Z) :
  HdRel Z.lt y l -> (y < z)%Z -> HdRel Z.lt y (insert_unique z l).
Proof.
  intros H Hyz. destruct l as [|x l]; cbn [insert_unique].
  - now constructor.
  - inversion H as [|? ? Hyx]; subst.
    destruct (z <? x)%Z; [now constructor|].
    destruct (z =? x)%Z; now constructor.
Qed.

Lemma insert_unique_sorted (z : Z) (l : list Z) :
  Sorted Z.lt l -> Sorted Z.lt (insert_unique z l).
Proof.
  induction 1 as [|y l Hs IH Hd]; cbn [insert_unique].
  - repeat constructor.
  - destruct (z <? y)%Z eqn:E1.
    + apply Z.ltb_lt in E1. repeat constructor; auto.
    + destruct (z =? y)%Z eqn:E2; [now constructor|].
      apply Z.ltb_ge in E1. apply Z.eqb_neq in E2.
      constructor; [exact IH|]. apply HdRel_insert_unique; [exact Hd | lia].
Qed.

(** [np.unique] lists its values in increasing order, each once. *)
Lemma np_unique_sorted (l : list Z) : Sorted Z.lt (np_unique l).
Proof.
  induction l as [|z l IH]; [constructor|].
  cbn [np_unique fold_right]. now apply insert_unique_sorted.
Qed.

Lemma np_unique_NoDup (l : list Z) : NoDup (np_unique l).
Proof.
  pose proof (np_unique_sorted l) as H.
  apply Sorted_StronglySorted in H; [|intros a b c; apply Z.lt_trans].
  induction H as [|y u _ IH Hall]; constructor; auto.
  intros Hin. rewrite Forall_forall in Hall. specialize (Hall y Hin). lia.
Qed.

Lemma insert_unique_length (z : Z) (l : list Z) :
  (length (insert_unique z l) <= S (length l))%nat.
Proof.
  induction l as [|y l IH]; cbn [insert_unique length]; [lia|].
  destruct (z <? y)%Z; [cbn; lia|].
  destruct (z =? y)%Z; cbn [length]; lia.
Qed.

Lemma np_unique_length (l : list Z) : (length (np_unique l) <= length l)%nat.
Proof.
  induction l as [|z l IH]; [cbn; lia|].
  cbn [np_unique fold_right length].
  pose proof (insert_unique_length z (np_unique l)).
  fold (np_unique l) in *. lia.
Qed.

(** Distinct integers of [0, 2^u) are at most [2^u]. *)
Lemma bounded_NoDup_length (u : nat) (l : list Z) :
  NoDup l -> Forall (fun z => (0 <= z < 2 ^ Z.of_nat u)%Z) l ->
  (Z.of_nat (length l) <= 2 ^ Z.of_nat u)%Z.
Proof.
  intros Hnd Hall.
  assert (Hinj : NoDup (map Z.to_nat l)).
  { clear - Hnd Hall. induction Hnd as [|z l Hz Hnd IH]; cbn [map]; constructor.
    - intros Hin. apply in_map_iff in Hin. destruct Hin as (w & Hw & Hwin).
      inversion Hall as [|? ? Hz0 Hall']; subst.
      rewrite Forall_forall in Hall'. specialize (Hall' w Hwin).
      assert (w = z) by lia. now subst.
    - apply IH. now inversion Hall. }
  assert (Hincl : incl (map Z.to_nat l) (seq 0 (Z.to_nat (2 ^ Z.of_nat u)))).
  { intros k Hk. apply in_map_iff in Hk. destruct Hk as (w & <- & Hw).
    rewrite Forall_forall in Hall. specialize (Hall w Hw).
    apply in_seq. lia. }
  pose proof (NoDup_incl_length Hinj Hincl) as Hlen.
  rewrite length_map, length_seq in Hlen. lia.
Qed.

End RegionCount.

(** X26. The number of activated regions that [run_experiment] counts,
    [len(np.unique(poly[0]))], is at most the number of points of the
    batch, at least 1 for a non-empty batch, and at most [2^U] for a
    network of [U <= 63] units, on every model and batch of fitting
    shapes. *)
Theorem region_count_bounds (model : Net) (train_x : matrix) (penultimate : bool)
        (d : nat) :
  linear_layers model <> [] ->
  layers_ok d (linear_layers model) = true ->
  batch_ok d train_x = true ->
  exists ids acts,
    get_polytopes model train_x penultimate = Ok ([ids], Some acts) /\
    (length (np_unique ids) <= length train_x)%nat /\
    (train_x <> [] -> (1 <= length (np_unique ids))%nat) /\
    ((total_units (linear_layers model) <= 63)%nat ->
     (Z.of_nat (length (np_unique ids))
      <= 2 ^ Z.of_nat (total_units (linear_layers model)))%Z).
Proof.
  intros Hne Hl Hx.
  destruct (run_layers_patterns model train_x penultimate d Hne Hl Hx)
    as (st & patterns & Hst & Hc & Hn & Hp & _).
  assert (Hids : length (map region_id patterns) = length train_x)
    by (now rewrite length_map).
  exists (map region_id patterns), (last_activations st).
  split; [now apply get_polytopes_of_run|].
  split; [rewrite <- Hids; apply np_unique_length|].
  split.
  - intros Hx0.
    assert (Hi : map region_id patterns <> []).
    { intros E. apply (f_equal (@length Z)) in E. rewrite Hids in E.
      destruct train_x; [congruence | discriminate]. }
    apply np_unique_nonempty in Hi.
    destruct (np_unique (map region_id patterns)); [congruence | cbn; lia].
  - intros HU. apply bounded_NoDup_length; [apply np_unique_NoDup|].
    apply Forall_forall. intros z Hz. apply np_unique_In in Hz.
    apply in_map_iff in Hz. destruct Hz as (p & <- & Hpin).
    rewrite Forall_forall in Hp. destruct (Hp p Hpin) as (Hlen & Hok).
    rewrite <- Hlen, (region_id_small p Hok) by lia.
    now apply binary_value_range.
Qed.

(** The two-layer model on three points, two of them in one region. *)
Lemma region_count_bounds_witness :
  exists ids acts,
    get_polytopes two_layer_model [[1]; [1 # 4]; [2]] false
    = Ok ([ids], Some acts) /\
    (length (np_unique ids) <= 3)%nat /\
    (Z.of_nat (length (np_unique ids)) <= 4)%Z.
Proof.
  destruct (region_count_bounds two_layer_model [[1]; [1 # 4]; [2]] false 1)
    as (ids & acts & Hg & H1 & _ & H3);
    [discriminate | reflexivity | reflexivity |].
  exists ids, acts. split; [exact Hg|]. split; [exact H1|].
  apply H3. cbn. lia.
Defined.
